(** * AP Elections 2024 dashboard (election.py): the results aggregator

    The script loads a table of election results with pandas and derives
    three views from it: the rows of one party with their vote statistics
    (tab 1), the rows of one constituency with the leading party (tab 2),
    and a per-party roll-up with vote shares (tab 3).

    This development embeds that pipeline: the pandas operations the script
    calls (boolean indexing, [sum], [mean], [max], [idxmax], [unique],
    [groupby(...).agg], [round]) on the dtypes [read_csv] gives the columns
    of a file of plain names and decimal votes (str, int64, and float64 for
    what is derived), the objects the script allocates and updates, the
    metrics it renders and the exceptions that stop it. Files with missing
    or numeric names, or votes outside int64, get other dtypes; they are
    outside the embedding ([parse_csv]). *)

From Stdlib Require Import ZArith QArith Qround Qabs Qpower Lqa Lia String List.
From Stdlib Require Import Floats.
From stdpp Require Import base tactics option list strings gmap sorting.

Local Close Scope Q_scope.
Local Open Scope nat_scope.

(** * numpy scalars *)

(** ** int64: 64-bit two's complement, wrapping silently on overflow *)

Definition int64 (z : Z) : Prop := (- 2 ^ 63 ≤ z < 2 ^ 63)%Z.

Definition wrap64 (z : Z) : Z := ((z + 2 ^ 63) `mod` 2 ^ 64 - 2 ^ 63)%Z.

(** ** float64: IEEE 754 binary64, round to nearest, ties to even

    A finite value is kept as the rational it denotes (in lowest terms, so
    that equal values are equal terms); the zero's sign is not kept. *)

Inductive float64 := Fin (q : Q) | PInf | NInf | NaN.

Module F64.

Definition pow2 (e : Z) : Q :=
  if (0 <=? e)%Z then inject_Z (2 ^ e) else 1 # Z.to_pos (2 ^ (- e)).

(** The binary exponent of a positive rational: [2^e <= x < 2^(e+1)]. *)
Definition ilog2 (x : Q) : Z :=
  let e0 := (Z.log2 (Qnum x) - Z.log2 (Zpos (Qden x)))%Z in
  if Qle_bool (pow2 e0) x then e0 else (e0 - 1)%Z.

(** Nearest integer, ties to even (C's rint in the default mode). *)
Definition rint (x : Q) : Z :=
  let f := Qfloor x in
  match (x - inject_Z f ?= 1 # 2)%Q with
  | Lt => f
  | Gt => (f + 1)%Z
  | Eq => if Z.even f then f else (f + 1)%Z
  end.

(** 53 significant bits; the last place is never below 2^-1074. *)
Definition round_pos (x : Q) : Q :=
  let e := Z.max (ilog2 x - 52) (- 1074) in
  (inject_Z (rint (x / pow2 e)) * pow2 e)%Q.

Definition round (x : Q) : float64 :=
  match Qnum x with
  | Z0 => Fin 0
  | Zpos _ =>
      let r := round_pos x in
      if Qle_bool (pow2 1024) r then PInf else Fin (Qred r)
  | Zneg _ =>
      let r := round_pos (- x) in
      if Qle_bool (pow2 1024) r then NInf else Fin (Qred (- r))
  end.

(** int64 -> float64 conversion (inexact above 2^53). *)
Definition of_int (z : Z) : float64 := round (inject_Z z).

Definition add (a b : float64) : float64 :=
  match a, b with
  | NaN, _ | _, NaN => NaN
  | Fin x, Fin y => round (x + y)
  | PInf, NInf | NInf, PInf => NaN
  | PInf, _ | _, PInf => PInf
  | NInf, _ | _, NInf => NInf
  end.

Definition opp (a : float64) : float64 :=
  match a with
  | Fin x => Fin (Qred (- x))
  | PInf => NInf
  | NInf => PInf
  | NaN => NaN
  end.

Definition sub (a b : float64) : float64 := add a (opp b).

Definition is_nan (a : float64) : bool :=
  match a with NaN => true | _ => false end.

Definition mul (a b : float64) : float64 :=
  match a, b with
  | NaN, _ | _, NaN => NaN
  | Fin x, Fin y => round (x * y)
  | Fin x, PInf | PInf, Fin x =>
      match Qnum x with Z0 => NaN | Zpos _ => PInf | Zneg _ => NInf end
  | Fin x, NInf | NInf, Fin x =>
      match Qnum x with Z0 => NaN | Zpos _ => NInf | Zneg _ => PInf end
  | PInf, PInf | NInf, NInf => PInf
  | PInf, NInf | NInf, PInf => NInf
  end.

Definition div (a b : float64) : float64 :=
  match a, b with
  | NaN, _ | _, NaN => NaN
  | Fin x, Fin y =>
      match Qnum y, Qnum x with
      | Z0, Z0 => NaN
      | Z0, Zpos _ => PInf
      | Z0, Zneg _ => NInf
      | _, _ => round (x / y)
      end
  | Fin _, _ => Fin 0
  | PInf, Fin y => if Qle_bool 0 y then PInf else NInf
  | NInf, Fin y => if Qle_bool 0 y then NInf else PInf
  | _, _ => NaN
  end.

(** numpy's rint on a float64: the result is again a float64. *)
Definition frint (a : float64) : float64 :=
  match a with
  | Fin x => Fin (inject_Z (rint x))
  | _ => a
  end.

(** [ndarray.round(decimals)] for [decimals >= 0]: scale by 10^decimals,
    rint, scale back; each step is a float64 operation. *)
Definition around (decimals : nat) (a : float64) : float64 :=
  let factor := of_int (10 ^ Z.of_nat decimals) in
  div (frint (mul a factor)) factor.

(** What a primitive binary64 float denotes, to compare the operations
    above with the machine's. *)
Definition of_prim (f : PrimFloat.float) : float64 :=
  match Prim2SF f with
  | S754_zero _ => Fin 0
  | S754_infinity false => PInf
  | S754_infinity true => NInf
  | S754_nan => NaN
  | S754_finite s m e =>
      Fin (Qred (inject_Z (if s then Z.neg m else Z.pos m) * pow2 e))
  end.

Definition prim_of_int (z : Z) : PrimFloat.float :=
  match z with
  | Zneg p => PrimFloat.opp (PrimFloat.of_uint63 (Uint63.of_Z (Zpos p)))
  | _ => PrimFloat.of_uint63 (Uint63.of_Z z)
  end.

End F64.

(** * Python values and exceptions *)

Inductive exn := ValueError | KeyError | OverflowError | TypeError.

Inductive result (A : Type) := Ok (a : A) | Raise (e : exn).
Arguments Ok {A} a.
Arguments Raise {A} e.

(** A value reduced from a numeric column: numpy int64 or float64. *)
Inductive scalar := SInt (z : Z) | SFloat (f : float64).

(** What [st.metric] is given to show, and what an expression such as
    [df.loc[label, col]] may evaluate to. *)
Inductive pyval :=
  | VInt (z : Z)
  | VStr (s : string)
  | VSeries (l : list string).

(** The builtin [int(x)]: exact on an integer, truncation toward zero on a
    finite float, ValueError on NaN, OverflowError on an infinity. *)
Definition py_int (x : scalar) : result Z :=
  match x with
  | SInt z => Ok z
  | SFloat (Fin q) => Ok (Z.quot (Qnum q) (Zpos (Qden q)))
  | SFloat NaN => Raise ValueError
  | SFloat _ => Raise OverflowError
  end.

Definition str_le (a b : string) : Prop := String.leb a b = true.

#[global] Instance str_le_dec a b : Decision (str_le a b).
Proof. unfold str_le. apply _. Defined.

(** The builtin [sorted] on a list of str: ascending, character by
    character. (On a column that [read_csv] typed otherwise it compares
    numbers, or raises TypeError between a str and a missing value; such
    columns are outside [parse_csv].) *)
Definition sorted (l : list string) : list string := merge_sort str_le l.

(** * The data: one row per (constituency, candidate)

    A row as the script sees it when [read_csv] has typed the three name
    columns as object columns of str, without missing values, and
    [Total Votes] as an int64 column. [parse_csv] below says for which
    files that is the case. *)

Record Row := mkRow {
  Constituency : string;
  Candidate : string;
  Party : string;
  Total_Votes : Z
}.

(** A DataFrame of result rows: each row with its index label. *)
Abbreviation DataFrame := (list (nat * Row)).

(** [pd.read_csv] on a file of typed rows: the rows under a RangeIndex. *)
Definition read_csv (file : list Row) : DataFrame := imap (λ i r, (i, r)) file.

(** ** The file behind the rows

    A line of the file as the tokenizer hands it to [read_csv]'s type
    inference: the text of its four fields. *)
Record Line := mkLine {
  constituency_field : string;
  candidate_field : string;
  party_field : string;
  votes_field : string
}.

Definition is_upper (a : Ascii.ascii) : bool :=
  (65 <=? Ascii.nat_of_ascii a) && (Ascii.nat_of_ascii a <=? 90).

Definition is_lower (a : Ascii.ascii) : bool :=
  (97 <=? Ascii.nat_of_ascii a) && (Ascii.nat_of_ascii a <=? 122).

Definition is_digit (a : Ascii.ascii) : bool :=
  (48 <=? Ascii.nat_of_ascii a) && (Ascii.nat_of_ascii a <=? 57).

Definition lower (a : Ascii.ascii) : Ascii.ascii :=
  if is_upper a then Ascii.ascii_of_nat (Ascii.nat_of_ascii a + 32) else a.

Fixpoint lowercase (s : string) : string :=
  match s with
  | EmptyString => EmptyString
  | String a s' => String (lower a) (lowercase s')
  end.

(** Words that [read_csv] does not keep as text: its markers of a missing
    value, and the spellings of booleans and of the special floats. *)
Definition reserved : list string :=
  [ "nan"; "na"; "n/a"; "null"; "none"; "inf"; "infinity"; "true"; "false" ]%string.

(** A field that stays a str whatever the rest of its column holds: it
    starts with a letter and is none of the reserved words, in any case. *)
Definition plain_text (s : string) : bool :=
  match s with
  | EmptyString => false
  | String a _ =>
      (is_upper a || is_lower a) && negb (bool_decide (lowercase s ∈ reserved))
  end.

Fixpoint digits_from (acc : Z) (s : string) : option Z :=
  match s with
  | EmptyString => Some acc
  | String a s' =>
      if is_digit a
      then digits_from (10 * acc + Z.of_nat (Ascii.nat_of_ascii a - 48)) s'
      else None
  end.

(** A field of decimal digits, as the integer it spells. *)
Definition digits_value (s : string) : option Z :=
  match s with
  | EmptyString => None
  | _ => digits_from 0 s
  end.

Definition read_line (l : Line) : option Row :=
  if plain_text (constituency_field l) && plain_text (candidate_field l)
     && plain_text (party_field l)
  then match digits_value (votes_field l) with
       | Some v => if (v <? 2 ^ 63)%Z
                   then Some (mkRow (constituency_field l) (candidate_field l)
                                    (party_field l) v)
                   else None
       | None => None
       end
  else None.

(** The files that [read_csv] types as [Row] says: at least one line, every
    name a plain text, every vote a decimal integer below 2^63. Any other
    file (a missing or numeric name, a vote that is missing, signed,
    fractional or beyond int64, no line at all) gets missing values or
    columns of another dtype, on which the script behaves differently; it
    is outside this model, and [parse_csv] gives None for it. *)
Definition parse_csv (lines : list Line) : option (list Row) :=
  match lines with
  | [] => None
  | _ => mapM read_line lines
  end.

(** A Series: the index labels with one column's values. *)
Definition getcol {A} (col : Row → A) (df : DataFrame) : list (nat * A) :=
  (λ ir, (ir.1, col ir.2)) <$> df.

Definition values {A} (s : list (nat * A)) : list A := snd <$> s.

(** * The pandas operations the script calls *)

Module Series.

(** [s == v], element by element; the selected value may be None, which
    equals no string. *)
Definition eq (s : list (nat * string)) (v : option string) : list bool :=
  (λ ix, bool_decide (Some ix.2 = v)) <$> s.

(** [sum] of an int64 column: int64 accumulation, 0 on the empty one. *)
Definition sum (s : list Z) : Z := foldl (λ acc v, wrap64 (acc + v)) 0%Z s.

(** The float64 accumulation behind [Series.mean]: a column of fewer than
    8 values is added from left to right, as here, and a longer one in
    blocks; every order gives the same float while the partial sums stay
    below 2^53, which the statements about the mean assume. *)
Definition fsum (s : list Z) : float64 :=
  foldl (λ acc v, F64.add acc (F64.of_int v)) (Fin 0) s.

(** The mean of one group in [groupby(...).agg]: the values are cast to
    float64 and added with a running compensation (Kahan), which is reset
    when it is not a number; the sum is divided by the group's size. *)
Definition kahan_step (st : float64 * float64) (v : Z) : float64 * float64 :=
  let y := F64.sub (F64.of_int v) st.2 in
  let t := F64.add st.1 y in
  let c := F64.sub (F64.sub t st.1) y in
  (t, if F64.is_nan c then Fin 0 else c).

Definition group_mean (s : list Z) : float64 :=
  match s with
  | [] => NaN
  | _ => F64.div (foldl kahan_step (Fin 0, Fin 0) s).1
                 (F64.of_int (Z.of_nat (length s)))
  end.

(** [Series.mean] of an int64 column: a float64, NaN on the empty one. *)
Definition mean (s : list Z) : float64 :=
  match s with
  | [] => NaN
  | _ => F64.div (fsum s) (F64.of_int (Z.of_nat (length s)))
  end.

(** [max] of an int64 column: NaN on the empty one. *)
Definition max (s : list Z) : scalar :=
  match s with
  | [] => SFloat NaN
  | v :: s' => SInt (foldl Z.max v s')
  end.

(** [idxmax]: the label of the first occurrence of the maximum;
    ValueError on the empty Series. *)
Definition better (best jw : nat * Z) : nat * Z :=
  if (best.2 <? jw.2)%Z then jw else best.

Definition idxmax (s : list (nat * Z)) : result nat :=
  match s with
  | [] => Raise ValueError
  | iv :: s' => Ok (foldl better iv s').1
  end.

(** [unique]: the distinct values in order of first appearance. *)
Fixpoint unique_from (seen : list string) (s : list string) : list string :=
  match s with
  | [] => []
  | x :: s' =>
      if decide (x ∈ seen) then unique_from seen s'
      else x :: unique_from (x :: seen) s'
  end.

Definition unique (s : list string) : list string := unique_from [] s.

End Series.

Module Frame.

(** [df[mask]]: the rows at which the boolean mask is True, with their
    labels, in order. *)
Definition getitem_mask (df : DataFrame) (mask : list bool) : DataFrame :=
  fst <$> filter (λ rb, rb.2 = true) (zip df mask).

(** [df.loc[label, 'Party']]: the scalar when the label names one row, a
    Series when it names several, KeyError when it names none. *)
Definition loc_Party (df : DataFrame) (label : nat) : result pyval :=
  match filter (λ ir : nat * Row, ir.1 = label) df with
  | [] => Raise KeyError
  | [ir] => Ok (VStr (Party ir.2))
  | irs => Ok (VSeries ((λ ir : nat * Row, Party ir.2) <$> irs))
  end.

End Frame.

(** [data.groupby('Party')['Total Votes']]: the groups in sorted key
    order, each with the votes of its rows in table order. Every row has
    a party here; a row whose party is missing would be in no group. *)
Definition groupby_Party (df : DataFrame) : list (string * list Z) :=
  (λ k, (k, values (getcol Total_Votes
                      (filter (λ ir : nat * Row, Party ir.2 = k) df))))
    <$> sorted (Series.unique (values (getcol Party df))).

(** * Derived tables, objects and the script's effects *)

Inductive column :=
  | CStr (l : list string)
  | CInt (l : list Z)
  | CFloat (l : list float64).

(** A derived table: its named columns, in order. *)
Abbreviation table := (list (string * column)).

(** [.agg(['sum', 'mean', 'count']).reset_index()]: one line per group;
    [reset_index] turns the group keys into the first column. *)
Definition agg_sum_mean_count (groups : list (string * list Z)) : table :=
  [ ("Party"%string, CStr (fst <$> groups));
    ("sum"%string, CInt ((λ g, Series.sum g.2) <$> groups));
    ("mean"%string, CFloat ((λ g, Series.group_mean g.2) <$> groups));
    ("count"%string, CInt ((λ g, Z.of_nat (length g.2)) <$> groups)) ].

(** [(tv / tv.sum() * 100).round(2)] on an int64 column [tv]: the scalar
    [tv.sum()] is broadcast, and every step is element by element. *)
Definition share (total s : Z) : float64 :=
  F64.around 2
    (F64.mul (F64.div (F64.of_int s) (F64.of_int total)) (F64.of_int 100)).

Definition vote_share (tv : list Z) : list float64 :=
  share (Series.sum tv) <$> tv.

Definition ref := nat.

Inductive obj :=
  | ODataFrame (df : DataFrame)
  | OTable (t : table).

Inductive widget := Metric (label : string) (value : pyval).

(** The interpreter's objects and what has been rendered so far. *)
Record world := mkWorld {
  heap : gmap nat obj;
  screen : list widget
}.

(** A statement runs in a world and either yields a value or raises; the
    objects and the page stay as they were when an exception is raised. *)
Definition M (A : Type) : Type := world → result A * world.

Definition ret {A} (a : A) : M A := λ w, (Ok a, w).

Definition bind {A B} (c : M A) (k : A → M B) : M B :=
  λ w, match c w with
       | (Ok a, w') => k a w'
       | (Raise e, w') => (Raise e, w')
       end.

Definition lift {A} (r : result A) : M A := λ w, (r, w).

#[global] Instance M_ret : MRet M := @ret.
#[global] Instance M_bind : MBind M := λ A B k c, bind c k.

(** A new object at an address no object has. *)
Definition alloc (o : obj) : M ref :=
  λ w, let l := fresh (dom (heap w)) in
       (Ok l, mkWorld (<[l := o]> (heap w)) (screen w)).

Definition get_frame (l : ref) : M DataFrame :=
  λ w, match heap w !! l with
       | Some (ODataFrame df) => (Ok df, w)
       | _ => (Raise TypeError, w)
       end.

Definition get_table (l : ref) : M table :=
  λ w, match heap w !! l with
       | Some (OTable t) => (Ok t, w)
       | _ => (Raise TypeError, w)
       end.

Definition put_table (l : ref) (t : table) : M unit :=
  λ w, (Ok tt, mkWorld (<[l := OTable t]> (heap w)) (screen w)).

(** [df.copy()] *)
Definition copy (l : ref) : M ref :=
  df ← get_frame l; alloc (ODataFrame df).

(** [t.columns = names]: renames in place; ValueError on a length
    mismatch. *)
Definition set_columns (l : ref) (names : list string) : M unit :=
  t ← get_table l;
  if decide (length names = length t)
  then put_table l (zip names (snd <$> t))
  else lift (Raise ValueError).

(** [t[name]] on an int64 column; KeyError when no column has the name. *)
Definition getitem_int (l : ref) (name : string) : M (list Z) :=
  t ← get_table l;
  match filter (λ nc : string * column, nc.1 = name) t with
  | (_, CInt tv) :: _ => ret tv
  | _ :: _ => lift (Raise TypeError)
  | [] => lift (Raise KeyError)
  end.

(** [t[name] = col]: replaces the column in place or appends it. *)
Definition setitem (l : ref) (name : string) (c : column) : M unit :=
  t ← get_table l;
  if decide (name ∈ fst <$> t)
  then put_table l ((λ nc : string * column,
                       if decide (nc.1 = name) then (name, c) else nc) <$> t)
  else put_table l (t ++ [(name, c)]).

(** [st.metric(label, value)] *)
Definition st_metric (label : string) (value : pyval) : M unit :=
  λ w, (Ok tt, mkWorld (heap w) (screen w ++ [Metric label value])).

(** [st.selectbox]: the option the user picked, the first one when the
    pick is not among them, None when there is no option. *)
Definition st_selectbox (options : list string) (pick : nat) : option string :=
  match options !! pick with
  | Some o => Some o
  | None => head options
  end.

(** * The script *)

Definition PARTY_COLORS : list (string * string) :=
  [ ("Janasena Party", "#FF0000");
    ("Telugu Desam", "#FFD700");
    ("Yuvajana Sramika Rythu Congress Party", "#0000FF");
    ("Bharatiya Janata Party", "#FFA500") ]%string.

(** [PARTY_COLORS[key]] *)
Definition party_color (key : option string) : result string :=
  match filter (λ kv : string * string, Some kv.1 = key) PARTY_COLORS with
  | kv :: _ => Ok kv.2
  | [] => Raise KeyError
  end.

(** [load_data()] *)
Definition load_data (file : list Row) : M ref :=
  alloc (ODataFrame (read_csv file)).

Definition constituencies (df : DataFrame) : list string :=
  sorted (Series.unique (values (getcol Constituency df))).

(** The sidebar: the two selections, [ui] being the user's picks. *)
Definition sidebar (data : ref) (ui : nat * nat)
  : M (option string * option string) :=
  let selected_party := st_selectbox (fst <$> PARTY_COLORS) ui.1 in
  _ ← lift (party_color selected_party);
  df ← get_frame data;
  let selected_constituency := st_selectbox (constituencies df) ui.2 in
  ret (selected_party, selected_constituency).

(** [data[data['Party'] == selected_party]] *)
Definition party_data (df : DataFrame) (selected_party : option string)
  : DataFrame :=
  Frame.getitem_mask df (Series.eq (getcol Party df) selected_party).

(** [data[data['Constituency'] == selected_constituency]] *)
Definition const_data (df : DataFrame) (selected_constituency : option string)
  : DataFrame :=
  Frame.getitem_mask df
    (Series.eq (getcol Constituency df) selected_constituency).

(** Tab 1, the key metrics row: the four expressions shown. The f-strings
    only add thousands separators; the number shown is recorded. *)
Definition total_constituencies (pd : DataFrame) : Z :=
  Z.of_nat (length (Series.unique (values (getcol Constituency pd)))).

Definition total_votes (pd : DataFrame) : Z :=
  Series.sum (values (getcol Total_Votes pd)).

Definition average_votes (pd : DataFrame) : result Z :=
  py_int (SFloat (Series.mean (values (getcol Total_Votes pd)))).

Definition highest_votes (pd : DataFrame) : result Z :=
  py_int (Series.max (values (getcol Total_Votes pd))).

Definition tab1_metrics (party_data : ref) : M unit :=
  pd ← get_frame party_data;
  st_metric "Total Constituencies" (VInt (total_constituencies pd));;
  st_metric "Total Votes" (VInt (total_votes pd));;
  average ← lift (average_votes pd);
  st_metric "Average Votes" (VInt average);;
  highest ← lift (highest_votes pd);
  st_metric "Highest Votes" (VInt highest).

(** Tab 1, the two charts: the bar chart and the box plot each look the
    party's colour up, [PARTY_COLORS[selected_party]] (lines 149 and 165).
    They read [party_data] ([sort_values] returns a new object); the
    figures themselves are plotly's. *)
Definition tab1_charts (selected_party : option string) : M unit :=
  _ ← lift (party_color selected_party);
  _ ← lift (party_color selected_party);
  ret tt.

(** Tab 1: the party's rows, copied, then the metrics and the charts. *)
Definition tab1 (data : ref) (selected_party : option string) : M ref :=
  df ← get_frame data;
  view ← alloc (ODataFrame (party_data df selected_party));
  party_data ← copy view;
  tab1_metrics party_data;;
  tab1_charts selected_party;;
  ret party_data.

(** [const_data.loc[const_data['Total Votes'].idxmax(), 'Party']] *)
Definition leading_party (const_data : DataFrame) : result pyval :=
  match Series.idxmax (getcol Total_Votes const_data) with
  | Ok label => Frame.loc_Party const_data label
  | Raise e => Raise e
  end.

(** Tab 2, the constituency metrics. *)
Definition total_candidates (cd : DataFrame) : Z := Z.of_nat (length cd).

Definition total_votes_cast (cd : DataFrame) : Z :=
  Series.sum (values (getcol Total_Votes cd)).

Definition tab2_metrics (const_data : ref) : M unit :=
  cd ← get_frame const_data;
  st_metric "Total Candidates" (VInt (total_candidates cd));;
  st_metric "Total Votes Cast" (VInt (total_votes_cast cd));;
  leader ← lift (leading_party cd);
  st_metric "Leading Party" leader.

(** Tab 2: the constituency's rows, copied, then the metrics. What follows
    is calls into plotly and Streamlit (the pie chart, the sorted results
    table, the CSV download): they read [const_data] into new objects
    ([const_data[[...]].sort_values(...)], [to_csv]), update none, and
    have no lookup of the script's own; what they draw is not modelled. *)
Definition tab2 (data : ref) (selected_constituency : option string) : M ref :=
  df ← get_frame data;
  view ← alloc (ODataFrame (const_data df selected_constituency));
  const_data ← copy view;
  tab2_metrics const_data;;
  ret const_data.

(** Tab 3: the per-party totals, built and then updated in place, and the
    overall metrics. What follows is calls into plotly and Streamlit (the
    bar chart, the summary table): they read [party_totals] through
    [sort_values] and [party_totals[[...]]], which return new objects;
    what they draw is not modelled. *)
Definition tab3 (data : ref) : M ref :=
  df ← get_frame data;
  party_totals ← alloc (OTable (agg_sum_mean_count (groupby_Party df)));
  set_columns party_totals
    ["Party"; "Total Votes"; "Average Votes"; "Constituencies"]%string;;
  tv ← getitem_int party_totals "Total Votes";
  setitem party_totals "Vote Share (%)" (CFloat (vote_share tv));;
  st_metric "Total Constituencies" (VInt (total_constituencies df));;
  st_metric "Total Votes Cast" (VInt (total_votes_cast df));;
  st_metric "Total Candidates"
    (VInt (Z.of_nat (length (Series.unique (values (getcol Candidate df))))));;
  ret party_totals.

(** The run of the script's own statements: load, sidebar, then the three
    tabs in order; the first exception that nothing catches ends it. The
    page's markup, images, charts and tables are Streamlit's and plotly's;
    of the page only the metrics are kept. *)
Definition script (file : list Row) (ui : nat * nat) : M unit :=
  data ← load_data file;
  selected ← sidebar data ui;
  tab1 data selected.1;;
  tab2 data selected.2;;
  tab3 data;;
  ret tt.

Definition start : world := mkWorld ∅ [].

(** The table of the worked scenario. *)
Definition scenario : list Row :=
  [ mkRow "C1" "X" "PartyA" 100;
    mkRow "C1" "Y" "PartyB" 150;
    mkRow "C2" "Z" "PartyA" 50 ]%string.

(** The table with the first party as a file. *)
Definition with_first_party_lines : list Line :=
  [ mkLine "C1" "X" "Janasena Party" "7"; mkLine "C1" "Y" "Telugu Desam" "9";
    mkLine "C2" "Z" "Janasena Party" "4" ]%string.

(** The scenario and the three-way table as files. *)
Definition scenario_lines : list Line :=
  [ mkLine "C1" "X" "PartyA" "100";
    mkLine "C1" "Y" "PartyB" "150";
    mkLine "C2" "Z" "PartyA" "50" ]%string.

Definition three_way_lines : list Line :=
  [ mkLine "C1" "X" "PartyA" "1"; mkLine "C1" "Y" "PartyB" "1";
    mkLine "C1" "Z" "PartyC" "1" ]%string.

(** * Reference notions the statements compare the code with *)

(** The exact (unbounded) sum of a column. *)
Definition exact_sum (s : list Z) : Z := foldr Z.add 0%Z s.

(** The exact sum of rationals. *)
Definition Qsum (l : list Q) : Q := foldr Qplus 0%Q l.

(** The unit roundoff of binary64. *)
Definition u53 : Q := 1 # 2 ^ 53.

(** How far a share rounded to two decimals may be from the exact
    percentage: half a unit of the second decimal, and the float64 noise. *)
Definition tolerance : Q := (1 # 200) + (1 # 10 ^ 12).

(** Half a unit of the integer that counts the hundredths, and the float64
    noise in front of the rounding. *)
Definition half_cent : Q := (1 # 2) + (1 # 10 ^ 10).

(** [r] is the percentage of [s] in [total] rounded to two decimals, as a
    float64 can hold it: the float64 nearest to k / 100, for an integer k
    that is 100 times the exact percentage rounded to an integer. *)
Definition two_decimals (total s : Z) (r : Q) : Prop :=
  ∃ k : Z,
    Fin r = F64.round (inject_Z k / 100)
    ∧ (Qabs (inject_Z k - 10000 * (inject_Z s / inject_Z total))
       <= half_cent)%Q.

(** Equality of float64 values, and the percentage before its rounding to
    two decimals, by the model and by the machine's binary64 arithmetic. *)
Definition float64_eqb (a b : float64) : bool :=
  match a, b with
  | Fin x, Fin y => Qeq_bool x y
  | PInf, PInf | NInf, NInf | NaN, NaN => true
  | _, _ => false
  end.

Definition model_percent (total s : Z) : float64 :=
  F64.mul (F64.div (F64.of_int s) (F64.of_int total)) (F64.of_int 100).

Definition prim_percent (total s : Z) : PrimFloat.float :=
  PrimFloat.mul
    (PrimFloat.div (F64.prim_of_int s) (F64.prim_of_int total))
    (F64.prim_of_int 100).

Definition samples : list Z :=
  [ 0; 1; 2; 3; 7; 50; 100; 150; 300; 12345; 2 ^ 31; 2 ^ 53 + 1;
    2 ^ 62 + 12345; 2 ^ 63 - 1 ]%Z.

(** The data model's invariant on votes. *)
Definition votes_nonneg (df : DataFrame) : Prop :=
  ∀ ir, ir ∈ df → (0 ≤ Total_Votes ir.2)%Z.

(** A table whose votes are all zero. *)
Definition no_votes : list Row := [ mkRow "C1" "X" "PartyA" 0 ]%string.

(** Three parties with equal votes. *)
Definition three_way : list Row :=
  [ mkRow "C1" "X" "PartyA" 1; mkRow "C1" "Y" "PartyB" 1;
    mkRow "C1" "Z" "PartyC" 1 ]%string.

(** The number of distinct values of a column. *)
Definition distinct (s : list string) : nat :=
  size (list_to_set s : gset string).

(** The world after [view = data[mask]] and [view.copy()]: two new objects,
    the second one returned. *)
Definition after_view (view : DataFrame) (w : world) : ref * world :=
  let l1 := fresh (dom (heap w)) in
  let h1 := <[l1 := ODataFrame view]> (heap w) in
  let l2 := fresh (dom h1) in
  (l2, mkWorld (<[l2 := ODataFrame view]> h1) (screen w)).

(** The table [party_totals] once tab 3 has renamed its columns and added
    the vote shares. *)
Definition party_totals (df : DataFrame) : table :=
  let groups := groupby_Party df in
  let tv := (λ g : string * list Z, Series.sum g.2) <$> groups in
  [ ("Party"%string, CStr (fst <$> groups));
    ("Total Votes"%string, CInt tv);
    ("Average Votes"%string, CFloat ((λ g, Series.group_mean g.2) <$> groups));
    ("Constituencies"%string, CInt ((λ g, Z.of_nat (length g.2)) <$> groups));
    ("Vote Share (%)"%string, CFloat (vote_share tv)) ].

Definition overall_metrics (df : DataFrame) : list widget :=
  [ Metric "Total Constituencies" (VInt (total_constituencies df));
    Metric "Total Votes Cast" (VInt (total_votes_cast df));
    Metric "Total Candidates"
      (VInt (Z.of_nat (length (Series.unique (values (getcol Candidate df)))))) ].

(** A world holding one loaded table and nothing rendered yet. *)
Definition world_with (l : ref) (df : DataFrame) : world :=
  mkWorld {[ l := ODataFrame df ]} [].

(** A table in which a party has two candidates in one constituency. *)
Definition two_in_one : list Row :=
  [ mkRow "C1" "X" "PartyA" 100; mkRow "C1" "Y" "PartyA" 50 ]%string.

(** A table whose vote total does not fit in 64 bits. *)
Definition huge : list Row :=
  [ mkRow "C1" "X" "PartyA" (2 ^ 62); mkRow "C2" "Y" "PartyA" (2 ^ 62) ]%string.

(** What a metric is labelled. *)
Definition label_of (m : widget) : string :=
  match m with Metric label _ => label end.

(** A table small enough for float64 to hold its sums and sizes exactly:
    votes not negative, total and number of rows below 2^53. *)
Definition modest (df : DataFrame) : Prop :=
  votes_nonneg df
  ∧ (exact_sum (values (getcol Total_Votes df)) < 2 ^ 53)%Z
  ∧ (Z.of_nat (length df) < 2 ^ 53)%Z.

(** A table in which the first party of the selector has a row. *)
Definition with_first_party : list Row :=
  [ mkRow "C1" "X" "Janasena Party" 7; mkRow "C1" "Y" "Telugu Desam" 9;
    mkRow "C2" "Z" "Janasena Party" 4 ]%string.

(** * Boolean indexing *)

Section mask.
Context {A : Type} (P : A → Prop) `{!∀ a, Decision (P a)}.

(** Indexing by the mask of a test keeps the elements that pass it. *)
Lemma zip_mask_filter (l : list A) :
  fst <$> filter (λ ab : A * bool, ab.2 = true)
                 (zip l ((λ a, bool_decide (P a)) <$> l))
  = filter P l.
Proof.
  induction l as [|a l IH]; [done|].
  cbn [fmap list_fmap zip zip_with].
  rewrite !filter_cons. cbn [snd].
  destruct (decide (P a)) as [Ha|Ha].
  - rewrite (bool_decide_eq_true_2 _ Ha).
    rewrite decide_True by done. cbn. by rewrite <- IH.
  - rewrite (bool_decide_eq_false_2 _ Ha).
    rewrite decide_False by done. apply IH.
Qed.
End mask.

Lemma getitem_mask_eq (col : Row → string) (df : DataFrame) v :
  Frame.getitem_mask df (Series.eq (getcol col df) v)
  = filter (λ ir : nat * Row, Some (col ir.2) = v) df.
Proof.
  unfold Frame.getitem_mask, Series.eq, getcol.
  rewrite <- list_fmap_compose.
  apply (zip_mask_filter (λ ir : nat * Row, Some (col ir.2) = v)).
Qed.

Lemma party_data_filter (df : DataFrame) sel :
  party_data df sel = filter (λ ir : nat * Row, Some (Party ir.2) = sel) df.
Proof. apply getitem_mask_eq. Qed.

Lemma const_data_filter (df : DataFrame) sel :
  const_data df sel
  = filter (λ ir : nat * Row, Some (Constituency ir.2) = sel) df.
Proof. apply getitem_mask_eq. Qed.

Lemma filter_nil_iff {A} (P : A → Prop) `{!∀ a, Decision (P a)} (l : list A) :
  filter P l = [] ↔ ∀ a, a ∈ l → ¬ P a.
Proof.
  split.
  - intros E a Ha HP. by eapply filter_nil_not_elem_of.
  - intros Hall. induction l as [|a l IH]; [done|].
    rewrite filter_cons_False; [|apply Hall; left].
    apply IH. intros b Hb. apply Hall. by right.
Qed.

(** C5 (filterByParty, filterByConstituency). The party view of a table is
    exactly its rows whose party is the given name, in table order and
    under their labels: a labelled row is in the view iff it is in the
    table with that party, and the view is empty (a value, no exception)
    exactly when no row has the name, whether or not the name is one of
    the selector's. The constituency view likewise. *)
Theorem C5_filter_exact (df : DataFrame) (name : string) :
  party_data df (Some name) = filter (λ ir : nat * Row, Party ir.2 = name) df
  ∧ (∀ ir, ir ∈ party_data df (Some name) ↔ ir ∈ df ∧ Party ir.2 = name)
  ∧ (party_data df (Some name) = [] ↔ ∀ ir, ir ∈ df → Party ir.2 ≠ name)
  ∧ party_data df (Some name) `sublist_of` df
  ∧ const_data df (Some name)
    = filter (λ ir : nat * Row, Constituency ir.2 = name) df
  ∧ (∀ ir, ir ∈ const_data df (Some name)
           ↔ ir ∈ df ∧ Constituency ir.2 = name)
  ∧ (const_data df (Some name) = []
     ↔ ∀ ir, ir ∈ df → Constituency ir.2 ≠ name)
  ∧ const_data df (Some name) `sublist_of` df.
Proof.
  assert (HP : party_data df (Some name)
               = filter (λ ir : nat * Row, Party ir.2 = name) df).
  { rewrite party_data_filter. apply list_filter_iff. intros ir.
    split; [by intros [= ->] | by intros ->]. }
  assert (HC : const_data df (Some name)
               = filter (λ ir : nat * Row, Constituency ir.2 = name) df).
  { rewrite const_data_filter. apply list_filter_iff. intros ir.
    split; [by intros [= ->] | by intros ->]. }
  rewrite HP, HC.
  split; [done|].
  split; [intros ir; rewrite list_elem_of_filter; tauto|].
  split; [apply filter_nil_iff|].
  split; [apply sublist_filter|].
  split; [done|].
  split; [intros ir; rewrite list_elem_of_filter; tauto|].
  split; [apply filter_nil_iff | apply sublist_filter].
Qed.

(** C8 (filterByParty is idempotent). Filtering the party view again by the
    same selection gives the same view. *)
Theorem C8_filter_idempotent (df : DataFrame) (sel : option string) :
  party_data (party_data df sel) sel = party_data df sel.
Proof.
  rewrite !party_data_filter, list_filter_filter.
  apply list_filter_iff. intros ir. tauto.
Qed.

(** * Labels *)

Lemma read_csv_labels (file : list Row) :
  fst <$> read_csv file = seq 0 (length file).
Proof.
  unfold read_csv. rewrite fmap_imap.
  rewrite (imap_ext _ (λ i _, i)) by done.
  rewrite (imap_seq_0 file (λ i, i)). apply list_fmap_id.
Qed.

Lemma read_csv_NoDup (file : list Row) : NoDup (fst <$> read_csv file).
Proof. rewrite read_csv_labels. apply NoDup_seq. Qed.

Lemma sublist_labels_NoDup (file : list Row) (S : DataFrame) :
  S `sublist_of` read_csv file → NoDup (fst <$> S).
Proof.
  intros HS. eapply sublist_NoDup; [apply read_csv_NoDup|].
  by apply fmap_sublist.
Qed.

(** With distinct labels, [.loc] at the label of a row reads that row. *)
Lemma loc_Party_at (pre post : DataFrame) (ir : nat * Row) :
  NoDup (fst <$> pre ++ ir :: post) →
  Frame.loc_Party (pre ++ ir :: post) ir.1 = Ok (VStr (Party ir.2)).
Proof.
  intros ND. unfold Frame.loc_Party.
  rewrite fmap_app, fmap_cons in ND.
  apply NoDup_app in ND as (_ & Hpre & ND).
  apply NoDup_cons in ND as (Hpost & _).
  rewrite filter_app, filter_cons_True by done.
  rewrite (proj2 (filter_nil_iff (λ jr : nat * Row, jr.1 = ir.1) pre)).
  2:{ intros jr Hjr E. apply (Hpre jr.1); [by apply list_elem_of_fmap_2|].
      rewrite E. left. }
  rewrite (proj2 (filter_nil_iff (λ jr : nat * Row, jr.1 = ir.1) post)).
  2:{ intros jr Hjr E. apply Hpost. rewrite <- E.
      by apply list_elem_of_fmap_2. }
  done.
Qed.

(** * Maximum and its first position *)

Lemma foldl_max_ge (s : list Z) (v : Z) :
  (v ≤ foldl Z.max v s)%Z ∧ ∀ x, x ∈ s → (x ≤ foldl Z.max v s)%Z.
Proof.
  revert v. induction s as [|y s IH]; intros v; cbn.
  - split; [lia|]. intros x Hx. by apply elem_of_nil in Hx.
  - destruct (IH (Z.max v y)) as [H1 H2]. split; [lia|].
    intros x Hx. apply elem_of_cons in Hx as [->|Hx]; [lia|by apply H2].
Qed.

Lemma foldl_max_elem (s : list Z) (v : Z) :
  foldl Z.max v s = v ∨ foldl Z.max v s ∈ s.
Proof.
  revert v. induction s as [|y s IH]; intros v; cbn; [by left|].
  destruct (IH (Z.max v y)) as [E|E].
  - rewrite E. destruct (Z.max_spec v y) as [[_ ->]|[_ ->]];
      [right; left | by left].
  - right. by right.
Qed.

(** The running best of [idxmax] splits the Series at the first maximum. *)
Lemma foldl_better_split (s : list (nat * Z)) (iv : nat * Z) :
  ∃ pre post,
    iv :: s = pre ++ foldl Series.better iv s :: post
    ∧ (∀ jw, jw ∈ pre → (jw.2 < (foldl Series.better iv s).2)%Z)
    ∧ (∀ jw, jw ∈ post → (jw.2 ≤ (foldl Series.better iv s).2)%Z).
Proof.
  induction s as [|x s IH] using rev_ind.
  - exists [], []. cbn. split; [done|].
    split; intros jw Hjw; by apply elem_of_nil in Hjw.
  - destruct IH as (pre & post & E & Hpre & Hpost).
    rewrite foldl_snoc. unfold Series.better at 1 3 5.
    destruct (Z.ltb_spec (foldl Series.better iv s).2 x.2) as [Hlt|Hge].
    + exists (iv :: s), []. split; [done|]. split.
      * intros jw Hjw. rewrite E in Hjw.
        apply elem_of_app in Hjw as [Hjw|Hjw]; [specialize (Hpre _ Hjw); lia|].
        apply elem_of_cons in Hjw as [->|Hjw]; [done|].
        specialize (Hpost _ Hjw); lia.
      * intros jw Hjw. by apply elem_of_nil in Hjw.
    + exists pre, (post ++ [x]). split.
      * rewrite app_comm_cons, E. by rewrite <- app_assoc.
      * split; [done|]. intros jw Hjw.
        apply elem_of_app in Hjw as [Hjw|Hjw]; [by apply Hpost|].
        apply list_elem_of_singleton in Hjw as ->. lia.
Qed.

Lemma max_of_split (pre post : list Z) (m : Z) :
  (∀ x, x ∈ pre → (x < m)%Z) → (∀ x, x ∈ post → (x ≤ m)%Z) →
  Series.max (pre ++ m :: post) = SInt m.
Proof.
  intros Hpre Hpost.
  assert (Hne : ∃ v s, pre ++ m :: post = v :: s).
  { destruct pre; cbn; eauto. }
  destruct Hne as (v & s & E). rewrite E. cbn. f_equal.
  destruct (foldl_max_ge s v) as [Hv Hs].
  assert (Hin : m ∈ v :: s) by (rewrite <- E, elem_of_app; right; left).
  assert (Hle : (m ≤ foldl Z.max v s)%Z).
  { apply elem_of_cons in Hin as [->|Hin]; [done|by apply Hs]. }
  assert (Hmem : foldl Z.max v s ∈ pre ++ m :: post).
  { rewrite E. destruct (foldl_max_elem s v) as [->|?]; [left|by right]. }
  apply elem_of_app in Hmem as [Hmem|Hmem].
  - specialize (Hpre _ Hmem). lia.
  - apply elem_of_cons in Hmem as [?|Hmem]; [done|].
    specialize (Hpost _ Hmem). lia.
Qed.

(** The first row with the most votes, for any non-empty frame. *)
Lemma idxmax_split (S : DataFrame) :
  S ≠ [] →
  ∃ pre ir post,
    S = pre ++ ir :: post
    ∧ (∀ jr, jr ∈ pre → (Total_Votes jr.2 < Total_Votes ir.2)%Z)
    ∧ (∀ jr, jr ∈ post → (Total_Votes jr.2 ≤ Total_Votes ir.2)%Z)
    ∧ Series.idxmax (getcol Total_Votes S) = Ok ir.1.
Proof.
  intros HS. destruct S as [|kr S]; [done|]. clear HS.
  unfold getcol. rewrite fmap_cons. cbn [Series.idxmax].
  set (f := λ ir : nat * Row, (ir.1, Total_Votes ir.2)).
  destruct (foldl_better_split (f <$> S) (f kr))
    as (pre' & post' & E & Hpre & Hpost).
  set (b := foldl Series.better (f kr) (f <$> S)) in *.
  rewrite <- fmap_cons in E.
  apply fmap_app_inv in E as (pre & rest & -> & Erest & ES).
  symmetry in Erest.
  apply fmap_cons_inv in Erest as (ir & post & Eb & -> & ->).
  exists pre, ir, post. change (kr.1, Total_Votes kr.2) with (f kr).
  fold b. rewrite Eb in Hpre, Hpost |- *. split; [done|].
  split; [|split; [|done]].
  - intros jr Hjr. apply (Hpre (f jr)). by apply list_elem_of_fmap_2.
  - intros jr Hjr. apply (Hpost (f jr)). by apply list_elem_of_fmap_2.
Qed.

Lemma votes_app (pre post : DataFrame) (ir : nat * Row) :
  values (getcol Total_Votes (pre ++ ir :: post))
  = values (getcol Total_Votes pre)
    ++ Total_Votes ir.2 :: values (getcol Total_Votes post).
Proof. unfold values, getcol. by rewrite !fmap_app, !fmap_cons. Qed.

Lemma elem_of_votes (S : DataFrame) (x : Z) :
  x ∈ values (getcol Total_Votes S) ↔ ∃ ir, ir ∈ S ∧ Total_Votes ir.2 = x.
Proof.
  unfold values, getcol. rewrite <- list_fmap_compose.
  rewrite list_elem_of_fmap. split.
  - intros (ir & -> & Hir). by exists ir.
  - intros (ir & Hir & <-). by exists ir.
Qed.

(** C2 (leadingParty). For a non-empty subset S of a loaded table, the
    leading party is the party of the first row of S, in table order, that
    has the most votes: every row before it has strictly fewer votes, every
    row after it has no more, and its votes are the maximum that the
    highest-votes metric reports. *)
Theorem C2_leading_party_first_max (file : list Row) (S : DataFrame) :
  S `sublist_of` read_csv file → S ≠ [] →
  ∃ pre ir post,
    S = pre ++ ir :: post
    ∧ (∀ jr, jr ∈ pre → (Total_Votes jr.2 < Total_Votes ir.2)%Z)
    ∧ (∀ jr, jr ∈ post → (Total_Votes jr.2 ≤ Total_Votes ir.2)%Z)
    ∧ Series.max (values (getcol Total_Votes S)) = SInt (Total_Votes ir.2)
    ∧ highest_votes S = Ok (Total_Votes ir.2)
    ∧ leading_party S = Ok (VStr (Party ir.2)).
Proof.
  intros Hsub HS.
  destruct (idxmax_split S HS) as (pre & ir & post & -> & Hpre & Hpost & Hidx).
  assert (Hmax : Series.max (values (getcol Total_Votes (pre ++ ir :: post)))
                 = SInt (Total_Votes ir.2)).
  { rewrite votes_app. apply max_of_split.
    - intros x Hx. apply elem_of_votes in Hx as (jr & Hjr & <-). by apply Hpre.
    - intros x Hx. apply elem_of_votes in Hx as (jr & Hjr & <-).
      by apply Hpost. }
  exists pre, ir, post. repeat split; try done.
  - unfold highest_votes. by rewrite Hmax.
  - unfold leading_party. rewrite Hidx. apply loc_Party_at.
    by eapply sublist_labels_NoDup.
Qed.

(** C6 (summarize.max). For a non-empty subset S the highest-votes metric
    is computed without exception, is at least the votes of every row of S
    and is the votes of some row of S. *)
Theorem C6_max_bounds_and_attained (S : DataFrame) :
  S ≠ [] →
  ∃ m, Series.max (values (getcol Total_Votes S)) = SInt m
       ∧ highest_votes S = Ok m
       ∧ (∀ ir, ir ∈ S → (Total_Votes ir.2 ≤ m)%Z)
       ∧ (∃ ir, ir ∈ S ∧ Total_Votes ir.2 = m).
Proof.
  intros HS.
  destruct (idxmax_split S HS) as (pre & ir & post & -> & Hpre & Hpost & _).
  assert (Hmax : Series.max (values (getcol Total_Votes (pre ++ ir :: post)))
                 = SInt (Total_Votes ir.2)).
  { rewrite votes_app. apply max_of_split.
    - intros x Hx. apply elem_of_votes in Hx as (jr & Hjr & <-). by apply Hpre.
    - intros x Hx. apply elem_of_votes in Hx as (jr & Hjr & <-).
      by apply Hpost. }
  exists (Total_Votes ir.2). split; [done|]. split.
  { unfold highest_votes. by rewrite Hmax. }
  split.
  - intros jr Hjr. apply elem_of_app in Hjr as [Hjr|Hjr].
    + specialize (Hpre _ Hjr). lia.
    + apply elem_of_cons in Hjr as [->|Hjr]; [lia|by apply Hpost].
  - exists ir. split; [|done]. apply elem_of_app. right. left.
Qed.

(** * Sums and counts *)

Lemma wrap64_id (z : Z) : int64 z → wrap64 z = z.
Proof.
  unfold int64, wrap64. intros Hz.
  rewrite Z.mod_small by lia. lia.
Qed.

Lemma wrap64_add_l (a v : Z) : wrap64 (wrap64 a + v) = wrap64 (a + v).
Proof.
  unfold wrap64. f_equal.
  replace ((a + 2 ^ 63) `mod` 2 ^ 64 - 2 ^ 63 + v + 2 ^ 63)%Z
    with ((a + 2 ^ 63) `mod` 2 ^ 64 + v)%Z by lia.
  rewrite Zplus_mod_idemp_l. f_equal. lia.
Qed.

Lemma sum_from (s : list Z) (a : Z) :
  foldl (λ acc v, wrap64 (acc + v)) (wrap64 a) s = wrap64 (a + exact_sum s).
Proof.
  revert a. induction s as [|v s IH]; intros a; cbn [foldl].
  - cbn. by rewrite Z.add_0_r.
  - rewrite wrap64_add_l, IH. f_equal. unfold exact_sum. cbn [foldr]. lia.
Qed.

(** The int64 sum is the exact sum wrapped into 64 bits. *)
Lemma sum_wrap (s : list Z) : Series.sum s = wrap64 (exact_sum s).
Proof. unfold Series.sum. apply (sum_from s 0). Qed.

Lemma sum_exact (s : list Z) : int64 (exact_sum s) → Series.sum s = exact_sum s.
Proof. intros Hs. rewrite sum_wrap. by apply wrap64_id. Qed.

Lemma elem_of_unique_from (seen s : list string) (x : string) :
  x ∈ Series.unique_from seen s ↔ x ∈ s ∧ x ∉ seen.
Proof.
  revert seen. induction s as [|y s IH]; intros seen; cbn.
  - rewrite elem_of_nil. tauto.
  - destruct (decide (y ∈ seen)) as [Hy|Hy].
    + rewrite IH, elem_of_cons. split; [tauto|].
      intros [[->|?] ?]; tauto.
    + rewrite !elem_of_cons, IH, elem_of_cons.
      destruct (decide (x = y)) as [->|]; tauto.
Qed.

Lemma NoDup_unique_from (seen s : list string) :
  NoDup (Series.unique_from seen s).
Proof.
  revert seen. induction s as [|y s IH]; intros seen; cbn; [constructor|].
  destruct (decide (y ∈ seen)); [apply IH|].
  apply NoDup_cons. split; [|apply IH].
  rewrite elem_of_unique_from, elem_of_cons. tauto.
Qed.

Lemma elem_of_unique (s : list string) (x : string) : x ∈ Series.unique s ↔ x ∈ s.
Proof.
  unfold Series.unique. rewrite elem_of_unique_from, elem_of_nil. tauto.
Qed.

(** [len(s.unique())] counts the distinct values. *)
Lemma length_unique (s : list string) : length (Series.unique s) = distinct s.
Proof.
  unfold distinct.
  rewrite <- (size_list_to_set (C := gset string) (Series.unique s))
    by apply NoDup_unique_from.
  f_equal. apply set_eq. intros x.
  by rewrite !elem_of_list_to_set, elem_of_unique.
Qed.

Lemma distinct_le (s : list string) : distinct s ≤ length s.
Proof.
  unfold distinct. induction s as [|x s IH]; cbn.
  - by rewrite size_empty.
  - rewrite size_union_alt, size_singleton.
    etrans; [|apply le_n_S, IH].
    cbn. apply le_n_S, subseteq_size.
    intros y Hy. by apply elem_of_difference in Hy as [? _].
Qed.

Lemma distinct_full (s : list string) : distinct s = length s ↔ NoDup s.
Proof.
  split; [|apply size_list_to_set].
  unfold distinct. induction s as [|x s IH]; cbn; [constructor|].
  intros E. destruct (decide (x ∈ s)) as [Hx|Hx].
  - exfalso. pose proof (distinct_le s) as Hle. unfold distinct in Hle.
    replace ({[x]} ∪ list_to_set s : gset string)
      with (list_to_set s : gset string) in E.
    { lia. }
    apply set_eq. intros y.
    rewrite elem_of_union, elem_of_singleton, !elem_of_list_to_set.
    split; [tauto | by intros [->|?]].
  - rewrite size_union, size_singleton in E.
    2:{ intros y Hy1 Hy2. apply elem_of_singleton in Hy1 as ->.
        by apply elem_of_list_to_set in Hy2. }
    apply NoDup_cons. split; [done|]. apply IH. lia.
Qed.

(** C4 (summarize.sum and .count), as the code has it. For a non-empty
    subset S whose exact vote total fits in a signed 64-bit integer, the
    sum shown in the party view and in the constituency view is the exact
    sum of the votes of the rows of S, and the count of the constituency
    view is the number of rows of S. The count of the party view is the
    number of distinct constituencies among the rows of S: never more than
    the number of rows, and equal to it exactly when no two rows of S share
    a constituency. *)
Theorem C4_sum_and_count (S : DataFrame) :
  S ≠ [] →
  int64 (exact_sum (values (getcol Total_Votes S))) →
  total_votes S = exact_sum (values (getcol Total_Votes S))
  ∧ total_votes_cast S = exact_sum (values (getcol Total_Votes S))
  ∧ total_candidates S = Z.of_nat (length S)
  ∧ total_constituencies S
    = Z.of_nat (distinct (values (getcol Constituency S)))
  ∧ (total_constituencies S ≤ Z.of_nat (length S))%Z
  ∧ (total_constituencies S = Z.of_nat (length S)
     ↔ NoDup (values (getcol Constituency S))).
Proof.
  intros _ Hfit.
  assert (Hlen : length (values (getcol Constituency S)) = length S).
  { unfold values, getcol. by rewrite !length_fmap. }
  unfold total_votes, total_votes_cast, total_candidates, total_constituencies.
  rewrite length_unique, (sum_exact _ Hfit).
  repeat split; try done.
  - pose proof (distinct_le (values (getcol Constituency S))). lia.
  - intros E. apply distinct_full. lia.
  - intros ND. apply distinct_full in ND. lia.
Qed.

Lemma C4_sum_and_count_witness :
  total_votes (read_csv scenario) = 300%Z
  ∧ total_candidates (read_csv scenario) = 3%Z
  ∧ total_constituencies (read_csv scenario) = 2%Z.
Proof.
  assert (Hne : read_csv scenario ≠ []) by done.
  assert (Hfit : int64 (exact_sum (values (getcol Total_Votes (read_csv scenario))))).
  { unfold int64. cbn. lia. }
  destruct (C4_sum_and_count (read_csv scenario) Hne Hfit)
    as (H1 & _ & H3 & H4 & _).
  rewrite H1, H3, H4. repeat split. 
Defined.

(** C4, the claim as written fails twice. With two rows of one party in one
    constituency the party view counts 1 for a subset of 2 rows; and with
    two rows of 2^62 votes the int64 sum is -2^63, not 2^63. *)
Lemma C4_counterexample :
  party_data (read_csv two_in_one) (Some "PartyA"%string) = read_csv two_in_one
  ∧ length (read_csv two_in_one) = 2
  ∧ total_constituencies (read_csv two_in_one) = 1%Z
  ∧ read_csv huge ≠ []
  ∧ exact_sum (values (getcol Total_Votes (read_csv huge))) = (2 ^ 63)%Z
  ∧ total_votes (read_csv huge) = (- 2 ^ 63)%Z
  ∧ total_votes_cast (read_csv huge) = (- 2 ^ 63)%Z.
Proof. repeat split; done. Qed.

(** * Running statements *)

Lemma bind_run {A B} (c : M A) (k : A → M B) (w : world) :
  (c ≫= k) w = match c w with
               | (Ok a, w') => k a w'
               | (Raise e, w') => (Raise e, w')
               end.
Proof. done. Qed.

Lemma bind_ok {A B} (c : M A) (k : A → M B) (w w' : world) (a : A) :
  c w = (Ok a, w') → (c ≫= k) w = k a w'.
Proof. intros E. by rewrite bind_run, E. Qed.

Lemma bind_raise {A B} (c : M A) (k : A → M B) (w w' : world) (e : exn) :
  c w = (Raise e, w') → (c ≫= k) w = (Raise e, w').
Proof. intros E. by rewrite bind_run, E. Qed.

Lemma get_frame_ok (l : ref) (df : DataFrame) (w : world) :
  heap w !! l = Some (ODataFrame df) → get_frame l w = (Ok df, w).
Proof. intros E. unfold get_frame. by rewrite E. Qed.

Lemma alloc_fresh (o : obj) (w : world) :
  heap w !! fresh (dom (heap w)) = None.
Proof. apply not_elem_of_dom, is_fresh. Qed.

(** The metrics row of tab 2 on a frame whose leading party is found. *)
Lemma tab2_metrics_ok (l : ref) (cd : DataFrame) (leader : pyval) (w : world) :
  heap w !! l = Some (ODataFrame cd) →
  leading_party cd = Ok leader →
  tab2_metrics l w
  = (Ok tt, mkWorld (heap w)
              (screen w ++ [ Metric "Total Candidates" (VInt (total_candidates cd));
                             Metric "Total Votes Cast" (VInt (total_votes_cast cd));
                             Metric "Leading Party" leader ])).
Proof.
  intros Hl Hlead. unfold tab2_metrics.
  rewrite (bind_ok _ _ _ _ _ (get_frame_ok _ _ _ Hl)).
  rewrite Hlead. unfold mbind, M_bind, bind, st_metric, lift. cbn.
  by rewrite <- !app_assoc.
Qed.

Lemma alloc_run (o : obj) (w : world) :
  alloc o w = (Ok (fresh (dom (heap w))),
               mkWorld (<[fresh (dom (heap w)) := o]> (heap w)) (screen w)).
Proof. done. Qed.

Lemma copy_ok (l : ref) (df : DataFrame) (w : world) :
  heap w !! l = Some (ODataFrame df) →
  copy l w = (Ok (fresh (dom (heap w))),
              mkWorld (<[fresh (dom (heap w)) := ODataFrame df]> (heap w))
                      (screen w)).
Proof.
  intros Hl. unfold copy. by rewrite (bind_ok _ _ _ _ _ (get_frame_ok _ _ _ Hl)).
Qed.

Lemma view_copy_run {B} (view : DataFrame) (k : ref → M B) (w : world) :
  (alloc (ODataFrame view) ≫= λ v, copy v ≫= k) w
  = k (after_view view w).1 (after_view view w).2.
Proof.
  unfold copy, mbind, M_bind, bind, alloc, get_frame, after_view.
  cbn. by rewrite lookup_insert_eq.
Qed.

Lemma after_view_lookup (view : DataFrame) (w : world) :
  heap (after_view view w).2 !! (after_view view w).1 = Some (ODataFrame view).
Proof. cbn. apply lookup_insert_eq. Qed.

Lemma after_view_fresh (view : DataFrame) (w : world) :
  heap w !! (after_view view w).1 = None.
Proof.
  cbn. set (l1 := fresh (dom (heap w))).
  set (h1 := <[l1 := ODataFrame view]> (heap w)).
  apply (lookup_weaken_None (heap w) h1).
  - apply not_elem_of_dom, is_fresh.
  - apply insert_subseteq, not_elem_of_dom, is_fresh.
Qed.

Lemma after_view_subseteq (view : DataFrame) (w : world) :
  heap w ⊆ heap (after_view view w).2.
Proof.
  cbn. set (l1 := fresh (dom (heap w))).
  set (h1 := <[l1 := ODataFrame view]> (heap w)).
  assert (H1 : heap w ⊆ h1).
  { apply insert_subseteq, not_elem_of_dom, is_fresh. }
  etrans; [apply H1|]. apply insert_subseteq, not_elem_of_dom, is_fresh.
Qed.

Lemma after_view_screen (view : DataFrame) (w : world) :
  screen (after_view view w).2 = screen w.
Proof. done. Qed.

(** Rendering metrics changes no object. *)
Lemma tab1_metrics_heap (l : ref) (w : world) :
  heap (tab1_metrics l w).2 = heap w.
Proof.
  unfold tab1_metrics, mbind, M_bind, bind, get_frame, st_metric, lift.
  repeat case_match; simplify_eq; done.
Qed.

Lemma tab2_metrics_heap (l : ref) (w : world) :
  heap (tab2_metrics l w).2 = heap w.
Proof.
  unfold tab2_metrics, mbind, M_bind, bind, get_frame, st_metric, lift.
  repeat case_match; simplify_eq; done.
Qed.

Lemma tab1_run (data : ref) (df : DataFrame) sel (w : world) :
  heap w !! data = Some (ODataFrame df) →
  tab1 data sel w
  = let lw := after_view (party_data df sel) w in
    match tab1_metrics lw.1 lw.2 with
    | (Ok _, w') => match party_color sel with
                    | Ok _ => (Ok lw.1, w')
                    | Raise e => (Raise e, w')
                    end
    | (Raise e, w') => (Raise e, w')
    end.
Proof.
  intros Hd. unfold tab1.
  rewrite (bind_ok _ _ _ _ _ (get_frame_ok _ _ _ Hd)).
  rewrite view_copy_run, bind_run. cbv zeta.
  destruct (tab1_metrics _ _) as [[[]|e] w']; [|done].
  rewrite bind_run. unfold tab1_charts, mbind, M_bind, bind, lift, mret, M_ret, ret.
  by destruct (party_color sel).
Qed.

Lemma tab2_run (data : ref) (df : DataFrame) sel (w : world) :
  heap w !! data = Some (ODataFrame df) →
  tab2 data sel w
  = let lw := after_view (const_data df sel) w in
    match tab2_metrics lw.1 lw.2 with
    | (Ok _, w') => (Ok lw.1, w')
    | (Raise e, w') => (Raise e, w')
    end.
Proof.
  intros Hd. unfold tab2.
  rewrite (bind_ok _ _ _ _ _ (get_frame_ok _ _ _ Hd)).
  rewrite view_copy_run. by rewrite bind_run.
Qed.

Lemma get_frame_raise (l : ref) (w : world) :
  (∀ df, heap w !! l ≠ Some (ODataFrame df)) →
  get_frame l w = (Raise TypeError, w).
Proof.
  intros Hl. unfold get_frame.
  destruct (heap w !! l) as [[df|t]|]; try done. by destruct (Hl df).
Qed.

(** The metrics rows on the empty frame. *)
Lemma tab1_metrics_empty (l : ref) (w : world) :
  heap w !! l = Some (ODataFrame []) →
  tab1_metrics l w
  = (Raise ValueError,
     mkWorld (heap w)
       (screen w ++ [ Metric "Total Constituencies" (VInt 0);
                      Metric "Total Votes" (VInt 0) ])).
Proof.
  intros Hl. unfold tab1_metrics.
  rewrite (bind_ok _ _ _ _ _ (get_frame_ok _ _ _ Hl)).
  unfold mbind, M_bind, bind, st_metric, lift. cbn.
  by rewrite <- !app_assoc.
Qed.

Lemma tab2_metrics_empty (l : ref) (w : world) :
  heap w !! l = Some (ODataFrame []) →
  tab2_metrics l w
  = (Raise ValueError,
     mkWorld (heap w)
       (screen w ++ [ Metric "Total Candidates" (VInt 0);
                      Metric "Total Votes Cast" (VInt 0) ])).
Proof.
  intros Hl. unfold tab2_metrics.
  rewrite (bind_ok _ _ _ _ _ (get_frame_ok _ _ _ Hl)).
  unfold mbind, M_bind, bind, st_metric, lift. cbn.
  by rewrite <- !app_assoc.
Qed.

Lemma get_table_ok (l : ref) (t : table) (w : world) :
  heap w !! l = Some (OTable t) → get_table l w = (Ok t, w).
Proof. intros E. unfold get_table. by rewrite E. Qed.

Lemma set_columns_ok (l : ref) (t : table) (names : list string) (w : world) :
  heap w !! l = Some (OTable t) →
  length names = length t →
  set_columns l names w
  = (Ok tt, mkWorld (<[l := OTable (zip names (snd <$> t))]> (heap w))
                    (screen w)).
Proof.
  intros Hl Hlen. unfold set_columns.
  rewrite (bind_ok _ _ _ _ _ (get_table_ok _ _ _ Hl)).
  by rewrite decide_True.
Qed.

Lemma getitem_int_ok (l : ref) (t rest : table) (name n : string)
    (tv : list Z) (w : world) :
  heap w !! l = Some (OTable t) →
  filter (λ nc : string * column, nc.1 = name) t = (n, CInt tv) :: rest →
  getitem_int l name w = (Ok tv, w).
Proof.
  intros Hl Hf. unfold getitem_int.
  rewrite (bind_ok _ _ _ _ _ (get_table_ok _ _ _ Hl)).
  by rewrite Hf.
Qed.

Lemma setitem_new (l : ref) (t : table) (name : string) (c : column)
    (w : world) :
  heap w !! l = Some (OTable t) →
  name ∉ fst <$> t →
  setitem l name c w
  = (Ok tt, mkWorld (<[l := OTable (t ++ [(name, c)])]> (heap w)) (screen w)).
Proof.
  intros Hl Hnew. unfold setitem.
  rewrite (bind_ok _ _ _ _ _ (get_table_ok _ _ _ Hl)).
  by rewrite decide_False.
Qed.

Lemma st_metric_run (label : string) (v : pyval) (w : world) :
  st_metric label v w
  = (Ok tt, mkWorld (heap w) (screen w ++ [Metric label v])).
Proof. done. Qed.

(** Tab 3 on a loaded table: one new object, updated twice in place. *)
Lemma tab3_run (data : ref) (df : DataFrame) (w : world) :
  heap w !! data = Some (ODataFrame df) →
  tab3 data w
  = (Ok (fresh (dom (heap w))),
     mkWorld (<[fresh (dom (heap w)) := OTable (party_totals df)]> (heap w))
             (screen w ++ overall_metrics df)).
Proof.
  intros Hd. unfold tab3.
  rewrite (bind_ok _ _ _ _ _ (get_frame_ok _ _ _ Hd)).
  rewrite (bind_ok _ _ _ _ _ (alloc_run _ _)).
  set (l := fresh (dom (heap w))).
  erewrite bind_ok; cycle 1.
  { apply set_columns_ok with (t := agg_sum_mean_count (groupby_Party df));
      [apply lookup_insert_eq | done]. }
  cbn [heap screen]. rewrite insert_insert_eq.
  erewrite bind_ok; cycle 1.
  { eapply getitem_int_ok; [apply lookup_insert_eq | done]. }
  erewrite bind_ok; cycle 1.
  { eapply setitem_new; [apply lookup_insert_eq |].
    cbn. rewrite !elem_of_cons, elem_of_nil. intros [?|[?|[?|[?|[]]]]]; done. }
  cbn [heap screen]. rewrite insert_insert_eq.
  repeat (rewrite bind_run, st_metric_run; cbn [heap screen]).
  unfold ret, overall_metrics. by rewrite <- !app_assoc.
Qed.

(** * Frames: what each tab leaves in the world *)

Lemma tab1_frame (data : ref) (df : DataFrame) sel (w : world) :
  heap w !! data = Some (ODataFrame df) →
  heap w ⊆ heap (tab1 data sel w).2
  ∧ ∀ l, (tab1 data sel w).1 = Ok l →
         heap w !! l = None
         ∧ heap (tab1 data sel w).2 !! l = Some (ODataFrame (party_data df sel)).
Proof.
  intros Hd. rewrite (tab1_run _ _ _ _ Hd). cbv zeta.
  set (lw := after_view (party_data df sel) w).
  pose proof (tab1_metrics_heap lw.1 lw.2) as Hh.
  destruct (tab1_metrics lw.1 lw.2) as [[[]|e] w'] eqn:E;
    [destruct (party_color sel)|]; cbn in Hh |- *; rewrite Hh.
  - split; [apply after_view_subseteq|]. intros l [= <-].
    split; [apply after_view_fresh | apply after_view_lookup].
  - split; [apply after_view_subseteq | done].
  - split; [apply after_view_subseteq | done].
Qed.

Lemma tab2_frame (data : ref) (df : DataFrame) sel (w : world) :
  heap w !! data = Some (ODataFrame df) →
  heap w ⊆ heap (tab2 data sel w).2
  ∧ ∀ l, (tab2 data sel w).1 = Ok l →
         heap w !! l = None
         ∧ heap (tab2 data sel w).2 !! l = Some (ODataFrame (const_data df sel)).
Proof.
  intros Hd. rewrite (tab2_run _ _ _ _ Hd). cbv zeta.
  set (lw := after_view (const_data df sel) w).
  pose proof (tab2_metrics_heap lw.1 lw.2) as Hh.
  destruct (tab2_metrics lw.1 lw.2) as [[[]|e] w'] eqn:E; cbn in Hh |- *;
    rewrite Hh.
  - split; [apply after_view_subseteq|]. intros l [= <-].
    split; [apply after_view_fresh | apply after_view_lookup].
  - split; [apply after_view_subseteq | done].
Qed.

Lemma tab3_frame (data : ref) (df : DataFrame) (w : world) :
  heap w !! data = Some (ODataFrame df) →
  heap w ⊆ heap (tab3 data w).2
  ∧ ∀ l, (tab3 data w).1 = Ok l →
         heap w !! l = None
         ∧ heap (tab3 data w).2 !! l = Some (OTable (party_totals df)).
Proof.
  intros Hd. rewrite (tab3_run _ _ _ Hd). cbn.
  split; [apply insert_subseteq, not_elem_of_dom, is_fresh|].
  intros l [= <-].
  split; [apply not_elem_of_dom, is_fresh | apply lookup_insert_eq].
Qed.

(** C9 (no operation mutates its input). Run from any world in which
    [data] is the loaded table, each tab leaves every object that existed
    before exactly as it was, the table included, whether the tab ends
    normally or with an exception; the view it returns is an object that did
    not exist before (the filtered rows for tabs 1 and 2, the totals table
    for tab 3, which is the only object updated in place); and showing the
    metrics of a view changes no object at all. *)
Theorem C9_source_table_never_mutated
    (w : world) (data : ref) (df : DataFrame) (sel : option string) :
  heap w !! data = Some (ODataFrame df) →
  (heap w ⊆ heap (tab1 data sel w).2
   ∧ heap (tab1 data sel w).2 !! data = Some (ODataFrame df)
   ∧ ∀ l, (tab1 data sel w).1 = Ok l →
          heap w !! l = None
          ∧ heap (tab1 data sel w).2 !! l
            = Some (ODataFrame (party_data df sel)))
  ∧ (heap w ⊆ heap (tab2 data sel w).2
     ∧ heap (tab2 data sel w).2 !! data = Some (ODataFrame df)
     ∧ ∀ l, (tab2 data sel w).1 = Ok l →
            heap w !! l = None
            ∧ heap (tab2 data sel w).2 !! l
              = Some (ODataFrame (const_data df sel)))
  ∧ (heap w ⊆ heap (tab3 data w).2
     ∧ heap (tab3 data w).2 !! data = Some (ODataFrame df)
     ∧ ∀ l, (tab3 data w).1 = Ok l →
            heap w !! l = None
            ∧ heap (tab3 data w).2 !! l = Some (OTable (party_totals df)))
  ∧ (∀ l, heap (tab1_metrics l w).2 = heap w)
  ∧ (∀ l, heap (tab2_metrics l w).2 = heap w).
Proof.
  intros Hd.
  destruct (tab1_frame data df sel w Hd) as [H1 H1'].
  destruct (tab2_frame data df sel w Hd) as [H2 H2'].
  destruct (tab3_frame data df w Hd) as [H3 H3'].
  repeat split; try done.
  - by eapply lookup_weaken.
  - by apply H1'.
  - by apply H1'.
  - by eapply lookup_weaken.
  - by apply H2'.
  - by apply H2'.
  - by eapply lookup_weaken.
  - by apply H3'.
  - by apply H3'.
  - intros l. apply tab1_metrics_heap.
  - intros l. apply tab2_metrics_heap.
Qed.

Lemma C9_source_table_never_mutated_witness :
  heap (tab1 7 (Some "PartyA"%string) (world_with 7 (read_csv scenario))).2 !! 7
    = Some (ODataFrame (read_csv scenario))
  ∧ heap (tab2 7 (Some "C1"%string) (world_with 7 (read_csv scenario))).2 !! 7
    = Some (ODataFrame (read_csv scenario))
  ∧ heap (tab3 7 (world_with 7 (read_csv scenario))).2 !! 7
    = Some (ODataFrame (read_csv scenario)).
Proof.
  set (w := world_with 7 (read_csv scenario)).
  assert (Hd : heap w !! 7 = Some (ODataFrame (read_csv scenario))) by done.
  destruct (C9_source_table_never_mutated w 7 (read_csv scenario)
              (Some "PartyA"%string) Hd) as ((_ & H1 & _) & _ & (_ & H3 & _) & _).
  destruct (C9_source_table_never_mutated w 7 (read_csv scenario)
              (Some "C1"%string) Hd) as (_ & (_ & H2 & _) & _).
  by repeat split.
Defined.

(** * The empty subset *)

(** C1 (empty input), as the code has it. On the empty subset the count and
    the sum are shown as 0 without any error, and the next computation (the
    mean in the party view, the leading party in the constituency view)
    raises Python's ValueError, as the maximum would; nothing catches it, so
    the metrics row ends there with the exception. *)
Theorem C1_empty_subset_raises_ValueError (l : ref) (w : world) :
  heap w !! l = Some (ODataFrame []) →
  tab1_metrics l w
  = (Raise ValueError,
     mkWorld (heap w)
       (screen w ++ [ Metric "Total Constituencies" (VInt 0);
                      Metric "Total Votes" (VInt 0) ]))
  ∧ tab2_metrics l w
    = (Raise ValueError,
       mkWorld (heap w)
         (screen w ++ [ Metric "Total Candidates" (VInt 0);
                        Metric "Total Votes Cast" (VInt 0) ]))
  ∧ average_votes [] = Raise ValueError
  ∧ highest_votes [] = Raise ValueError
  ∧ leading_party [] = Raise ValueError.
Proof.
  intros Hl. split; [by apply tab1_metrics_empty|].
  split; [by apply tab2_metrics_empty|]. done.
Qed.

Lemma C1_empty_subset_raises_ValueError_witness :
  (tab1_metrics 7 (world_with 7 [])).1 = Raise ValueError
  ∧ (tab2_metrics 7 (world_with 7 [])).1 = Raise ValueError.
Proof.
  assert (Hl : heap (world_with 7 []) !! 7 = Some (ODataFrame [])) by done.
  destruct (C1_empty_subset_raises_ValueError 7 (world_with 7 []) Hl)
    as (H1 & H2 & _).
  rewrite H1, H2. by split.
Defined.

(** C1, the claim as written fails: on the empty subset the sum and the
    count are the sentinel 0, and the mean, the maximum and the leading
    party end in an exception that the script does not handle. On the
    scenario's table, where the first party of the selector has no row, the
    whole run stops in tab 1 with ValueError after two metrics, and tabs 2
    and 3 are never rendered. *)
Lemma C1_counterexample :
  party_data (read_csv scenario) (Some "Janasena Party"%string) = []
  ∧ total_votes [] = 0%Z
  ∧ total_candidates [] = 0%Z
  ∧ average_votes [] = Raise ValueError
  ∧ highest_votes [] = Raise ValueError
  ∧ leading_party [] = Raise ValueError
  ∧ (script scenario (0, 0) start).1 = Raise ValueError
  ∧ screen (script scenario (0, 0) start).2
    = [ Metric "Total Constituencies" (VInt 0); Metric "Total Votes" (VInt 0) ].
Proof. repeat split; vm_compute; reflexivity. Qed.

(** * The selectors *)

Lemma st_selectbox_elem (options : list string) (pick : nat) (c : string) :
  st_selectbox options pick = Some c → c ∈ options.
Proof.
  unfold st_selectbox. destruct (options !! pick) as [o|] eqn:E.
  - intros [= <-]. by eapply list_elem_of_lookup_2.
  - destruct options as [|o options]; [done|]. intros [= <-]. left.
Qed.

Lemma st_selectbox_Some (options : list string) (pick : nat) :
  options ≠ [] → ∃ c, st_selectbox options pick = Some c.
Proof.
  intros Hne. unfold st_selectbox. destruct (options !! pick) as [o|]; [eauto|].
  destruct options; [done|]. eauto.
Qed.

Lemma elem_of_sorted (l : list string) (x : string) : x ∈ sorted l ↔ x ∈ l.
Proof. unfold sorted. by rewrite merge_sort_Permutation. Qed.

Lemma elem_of_constituencies (df : DataFrame) (c : string) :
  c ∈ constituencies df ↔ ∃ ir, ir ∈ df ∧ Constituency ir.2 = c.
Proof.
  unfold constituencies. rewrite elem_of_sorted, elem_of_unique.
  unfold values, getcol. rewrite <- list_fmap_compose, list_elem_of_fmap.
  split.
  - intros (ir & -> & Hir). by exists ir.
  - intros (ir & Hir & <-). by exists ir.
Qed.

Lemma const_data_nonempty (df : DataFrame) (c : string) :
  c ∈ constituencies df → const_data df (Some c) ≠ [].
Proof.
  intros Hc. apply elem_of_constituencies in Hc as (ir & Hir & <-).
  rewrite const_data_filter. intros E.
  by apply (filter_nil_not_elem_of _ _ ir E).
Qed.

Lemma leading_party_ok (S : DataFrame) :
  NoDup (fst <$> S) → S ≠ [] →
  ∃ ir, ir ∈ S ∧ leading_party S = Ok (VStr (Party ir.2)).
Proof.
  intros ND HS.
  destruct (idxmax_split S HS) as (pre & ir & post & -> & _ & _ & Hidx).
  exists ir. split; [apply elem_of_app; right; left|].
  unfold leading_party. rewrite Hidx. by apply loc_Party_at.
Qed.

Lemma const_data_NoDup (file : list Row) sel :
  NoDup (fst <$> const_data (read_csv file) sel).
Proof.
  apply (sublist_labels_NoDup file).
  rewrite const_data_filter. apply sublist_filter.
Qed.

(** Tab 2 on a selection that names a row of the loaded table. *)
Lemma tab2_ok (file : list Row) (c : string) (data : ref) (w : world) :
  c ∈ constituencies (read_csv file) →
  heap w !! data = Some (ODataFrame (read_csv file)) →
  ∃ l w', tab2 data (Some c) w = (Ok l, w').
Proof.
  intros Hc Hd. rewrite (tab2_run _ _ _ _ Hd). cbv zeta.
  destruct (leading_party_ok (const_data (read_csv file) (Some c)))
    as (ir & _ & Hlead);
    [apply const_data_NoDup | by apply const_data_nonempty|].
  rewrite (tab2_metrics_ok _ _ _ _ (after_view_lookup _ _) Hlead). eauto.
Qed.

Lemma tab1_raises_on_empty (data : ref) (df : DataFrame) sel (w : world) :
  heap w !! data = Some (ODataFrame df) →
  party_data df sel = [] →
  (tab1 data sel w).1 = Raise ValueError.
Proof.
  intros Hd Hempty. rewrite (tab1_run _ _ _ _ Hd), Hempty. cbv zeta.
  rewrite tab1_metrics_empty; [done | apply after_view_lookup].
Qed.

(** C10 (the constituency selector cannot select an empty subset). Whatever
    the user picks, a constituency that the selector returns for a loaded
    table names at least one row of it, so the constituency view is not
    empty, its leading party is found, and tab 2 ends normally; and in a
    run, whenever tab 1 has ended normally, tab 2 does too. The party
    selector gives no such guarantee: on the scenario's table its first
    option selects no row and tab 1 ends with ValueError. *)
Theorem C10_selected_constituency_has_rows :
  (∀ (file : list Row) (pick : nat) (c : string),
     st_selectbox (constituencies (read_csv file)) pick = Some c →
     const_data (read_csv file) (Some c) ≠ []
     ∧ (∃ ir, ir ∈ const_data (read_csv file) (Some c)
              ∧ leading_party (const_data (read_csv file) (Some c))
                = Ok (VStr (Party ir.2)))
     ∧ ∀ (w : world) (data : ref),
         heap w !! data = Some (ODataFrame (read_csv file)) →
         ∃ l w', tab2 data (Some c) w = (Ok l, w'))
  ∧ (∀ (file : list Row) (ui : nat * nat) (w w1 w2 : world) (data l1 : ref) sel,
       heap w !! data = Some (ODataFrame (read_csv file)) →
       sidebar data ui w = (Ok sel, w1) →
       tab1 data sel.1 w1 = (Ok l1, w2) →
       ∃ l2 w3, tab2 data sel.2 w2 = (Ok l2, w3))
  ∧ (∃ (file : list Row) (pick : nat) (p : string),
       file ≠ []
       ∧ st_selectbox (fst <$> PARTY_COLORS) pick = Some p
       ∧ party_data (read_csv file) (Some p) = []
       ∧ ∀ (w : world) (data : ref),
           heap w !! data = Some (ODataFrame (read_csv file)) →
           (tab1 data (Some p) w).1 = Raise ValueError).
Proof.
  split; [|split].
  - intros file pick c Hsel. apply st_selectbox_elem in Hsel.
    split; [by apply const_data_nonempty|]. split.
    + apply leading_party_ok;
        [apply const_data_NoDup | by apply const_data_nonempty].
    + intros w data Hd. by eapply tab2_ok.
  - intros file ui w w1 w2 data l1 sel Hd Hside Htab1.
    unfold sidebar in Hside. cbv zeta in Hside.
    remember (st_selectbox PARTY_COLORS.*1 ui.1) as sp eqn:Esp.
    remember (st_selectbox (constituencies (read_csv file)) ui.2) as sc eqn:Esc.
    rewrite bind_run in Hside.
    destruct (lift (party_color sp) w) as [[color|e] w0] eqn:Ecol; [|done].
    assert (w0 = w) as -> by (unfold lift in Ecol; congruence).
    rewrite (bind_ok _ _ _ _ _ (get_frame_ok _ _ _ Hd)) in Hside.
    rewrite <- Esc in Hside.
    assert (sel = (sp, sc) ∧ w1 = w) as [-> ->].
    { unfold mret, M_ret, ret in Hside. by injection Hside as <- <-. }
    change (sp, sc).1 with sp in Htab1. change (sp, sc).2 with sc.
    destruct (tab1_frame data (read_csv file) sp w Hd) as [Hsub _].
    rewrite Htab1 in Hsub. cbn [snd] in Hsub.
    assert (Hne : read_csv file ≠ []).
    { intros E.
      pose proof (tab1_raises_on_empty data (read_csv file) sp w Hd) as Hr.
      rewrite Htab1 in Hr. cbn [fst] in Hr.
      assert (Ok l1 = Raise ValueError) as [=]. apply Hr.
      rewrite party_data_filter, E. done. }
    assert (Hopts : constituencies (read_csv file) ≠ []).
    { destruct (read_csv file) as [|ir df] eqn:E; [done|].
      intros Hnil.
      assert (Hin : Constituency ir.2 ∈ constituencies (ir :: df)).
      { apply elem_of_constituencies. exists ir. split; [left|done]. }
      rewrite Hnil in Hin. by apply elem_of_nil in Hin. }
    destruct (st_selectbox_Some _ ui.2 Hopts) as [c Hc].
    rewrite Esc, Hc.
    apply (tab2_ok file c); [by eapply st_selectbox_elem|].
    by eapply lookup_weaken.
  - exists scenario, 0, "Janasena Party"%string.
    split; [done|]. split; [done|]. split; [done|].
    intros w data Hd. by apply (tab1_raises_on_empty _ _ _ _ Hd).
Qed.

Lemma C10_selected_constituency_has_rows_witness :
  st_selectbox (constituencies (read_csv scenario)) 1 = Some "C2"%string
  ∧ const_data (read_csv scenario) (Some "C2"%string) ≠ [].
Proof.
  assert (Hsel : st_selectbox (constituencies (read_csv scenario)) 1
                 = Some "C2"%string) by (vm_compute; reflexivity).
  split; [exact Hsel|].
  exact (proj1 (proj1 C10_selected_constituency_has_rows scenario 1 "C2"%string Hsel)).
Defined.

(** * The worked scenario *)

(** C7 (scenario). On the three-row table the totals table of tab 3 has
    PartyA with sum 150, mean 75, count 2 and share 50.0, and PartyB with
    sum 150, mean 150, count 1 and share 50.0; the rows of constituency C1
    are two; and their leading party is PartyB. *)
Theorem C7_scenario :
  (∃ l w, (load_data scenario ≫= tab3) start = (Ok l, w)
          ∧ heap w !! l
            = Some (OTable
                [ ("Party", CStr ["PartyA"; "PartyB"]);
                  ("Total Votes", CInt [150; 150]%Z);
                  ("Average Votes", CFloat [Fin 75; Fin 150]);
                  ("Constituencies", CInt [2; 1]%Z);
                  ("Vote Share (%)", CFloat [Fin 50; Fin 50]) ]%string))
  ∧ length (const_data (read_csv scenario) (Some "C1"%string)) = 2
  ∧ leading_party (const_data (read_csv scenario) (Some "C1"%string))
    = Ok (VStr "PartyB").
Proof.
  split; [|split; vm_compute; reflexivity].
  eexists _, _. split; [vm_compute; reflexivity|]. vm_compute. reflexivity.
Qed.

(** * binary64 rounding: relative error *)

Section binary64.
Local Open Scope Q_scope.

Lemma pow2_Qpower (e : Z) : F64.pow2 e == 2 ^ e.
Proof.
  unfold F64.pow2. destruct (Z.leb_spec 0 e) as [He|He].
  - apply (Zpower_Qpower 2 e He).
  - replace e with (- - e)%Z at 2 by lia.
    rewrite Qpower_opp, <- (Zpower_Qpower 2 (- e)) by lia.
    assert (Hp : (0 < 2 ^ (- e))%Z) by (apply Z.pow_pos_nonneg; lia).
    destruct (2 ^ (- e))%Z as [|p|p] eqn:E; try lia.
    reflexivity.
Qed.

Lemma pow2_pos (e : Z) : 0 < F64.pow2 e.
Proof. rewrite pow2_Qpower. by apply Qpower_0_lt. Qed.

Lemma pow2_add (a b : Z) : F64.pow2 (a + b) == F64.pow2 a * F64.pow2 b.
Proof. rewrite !pow2_Qpower. by apply Qpower_plus. Qed.

Lemma pow2_le (a b : Z) : (a ≤ b)%Z → F64.pow2 a <= F64.pow2 b.
Proof.
  intros Hab. rewrite !pow2_Qpower. apply Qpower_le_compat_l; [done|]. done.
Qed.

Lemma pow2_succ (a : Z) : F64.pow2 (a + 1) == 2 * F64.pow2 a.
Proof. rewrite pow2_add. change (F64.pow2 1) with 2. ring. Qed.

(** A positive rational lies between the powers of two around its
    exponent. *)
Lemma ilog2_spec (x : Q) :
  0 < x → F64.pow2 (F64.ilog2 x) <= x ∧ x < F64.pow2 (F64.ilog2 x + 1).
Proof.
  intros Hx. destruct x as [n d]. unfold F64.ilog2. cbn [Qnum Qden].
  assert (Hn : (0 < n)%Z).
  { unfold Qlt in Hx. cbn in Hx. lia. }
  set (a := Z.log2 n). set (b := Z.log2 (Z.pos d)).
  assert (Ha : (2 ^ a ≤ n < 2 ^ (a + 1))%Z).
  { unfold a. pose proof (Z.log2_spec n Hn). by rewrite <- Z.add_1_r in *. }
  assert (Hb : (2 ^ b ≤ Z.pos d < 2 ^ (b + 1))%Z).
  { unfold b. pose proof (Z.log2_spec (Z.pos d) eq_refl).
    by rewrite <- Z.add_1_r in *. }
  assert (Ha0 : (0 ≤ a)%Z) by apply Z.log2_nonneg.
  assert (Hb0 : (0 ≤ b)%Z) by apply Z.log2_nonneg.
  (* n / d against 2^a / 2^b *)
  assert (Hq : ∀ k : Z, (0 ≤ k)%Z → inject_Z (2 ^ k) == F64.pow2 k).
  { intros k Hk. unfold F64.pow2. by rewrite (proj2 (Z.leb_le 0 k) Hk). }
  assert (Hlo : F64.pow2 (a - b - 1) <= n # d).
  { assert (E : inject_Z (2 ^ a)
                == F64.pow2 (a - b - 1) * inject_Z (2 ^ (b + 1))).
    { rewrite !Hq by lia. rewrite <- pow2_add.
      by replace (a - b - 1 + (b + 1))%Z with a by lia. }
    apply Qmult_le_r with (z := inject_Z (2 ^ (b + 1))).
    { rewrite Hq by lia. apply pow2_pos. }
    rewrite <- E.
    apply Qle_trans with (inject_Z n * 1).
    { rewrite Qmult_1_r. rewrite <- Zle_Qle. lia. }
    apply Qle_trans with ((n # d) * inject_Z (Z.pos d)).
    { unfold Qle. cbn. nia. }
    apply Qmult_le_l; [done|]. rewrite <- Zle_Qle. lia. }
  assert (Hhi : (n # d) < F64.pow2 (a - b + 1)).
  { assert (E : inject_Z (2 ^ (a + 1))
                == F64.pow2 (a - b + 1) * inject_Z (2 ^ b)).
    { rewrite !Hq by lia. rewrite <- pow2_add.
      by replace (a - b + 1 + b)%Z with (a + 1)%Z by lia. }
    apply Qmult_lt_r with (z := inject_Z (2 ^ b)).
    { rewrite Hq by lia. apply pow2_pos. }
    rewrite <- E.
    apply Qle_lt_trans with ((n # d) * inject_Z (Z.pos d)).
    { apply Qmult_le_l; [done|]. rewrite <- Zle_Qle. lia. }
    apply Qle_lt_trans with (inject_Z n).
    { unfold Qle. cbn. nia. }
    rewrite <- Zlt_Qlt. lia. }
  destruct (Qle_bool (F64.pow2 (a - b)) (n # d)) eqn:E.
  - apply Qle_bool_iff in E. by split.
  - split; [done|].
    replace (a - b - 1 + 1)%Z with (a - b)%Z by lia.
    apply Qnot_le_lt. intros Hle. apply Qle_bool_iff in Hle. congruence.
Qed.

(** Rounding to the nearest integer moves a number by at most 1/2. *)
Lemma rint_spec (y : Q) :
  inject_Z (F64.rint y) - (1 # 2) <= y ∧ y <= inject_Z (F64.rint y) + (1 # 2).
Proof.
  unfold F64.rint.
  pose proof (Qfloor_le y) as Hlo. pose proof (Qlt_floor y) as Hhi.
  set (f := Qfloor y) in *.
  rewrite inject_Z_plus in Hhi. change (inject_Z 1) with 1 in Hhi.
  destruct (y - inject_Z f ?= 1 # 2) eqn:E.
  - apply Qeq_alt in E. destruct (Z.even f);
      rewrite ?inject_Z_plus; change (inject_Z 1) with 1; lra.
  - apply Qlt_alt in E. lra.
  - apply Qgt_alt in E. rewrite inject_Z_plus. change (inject_Z 1) with 1. lra.
Qed.

Lemma rint_nonneg (y : Q) : 0 <= y → (0 ≤ F64.rint y)%Z.
Proof.
  intros Hy. unfold F64.rint.
  assert (Hf : (0 ≤ Qfloor y)%Z).
  { change 0%Z with (Qfloor 0). by apply Qfloor_resp_le. }
  repeat case_match; lia.
Qed.

Lemma pow2_lt_inv (a b : Z) : F64.pow2 a < F64.pow2 b → (a < b)%Z.
Proof.
  intros Hlt. destruct (Z.lt_ge_cases a b) as [|Hge]; [done|].
  apply pow2_le in Hge. lra.
Qed.

(** In the normal range, rounding to 53 bits moves a positive number by at
    most 2^-53 of itself. *)
Lemma round_pos_rel (x : Q) :
  F64.pow2 (- 1022) <= x →
  x * (1 - u53) <= F64.round_pos x ∧ F64.round_pos x <= x * (1 + u53).
Proof.
  intros Hmin.
  assert (Hx : 0 < x) by (pose proof (pow2_pos (- 1022)); lra).
  destruct (ilog2_spec x Hx) as [Hlo Hhi].
  unfold F64.round_pos. set (e := F64.ilog2 x) in *.
  assert (He : (- 1022 ≤ e)%Z).
  { assert (H' : (- 1022 < e + 1)%Z) by (apply pow2_lt_inv; lra). lia. }
  rewrite Z.max_l by lia.
  set (p := F64.pow2 (e - 52)).
  assert (Hp : 0 < p) by apply pow2_pos.
  assert (Ep : F64.pow2 e == p * inject_Z (2 ^ 52)).
  { unfold p. change (inject_Z (2 ^ 52)) with (F64.pow2 52).
    rewrite <- pow2_add. by replace (e - 52 + 52)%Z with e by lia. }
  destruct (rint_spec (x / p)) as [Hr1 Hr2].
  set (m := inject_Z (F64.rint (x / p))) in *.
  assert (Exp : x / p * p == x) by (field; lra).
  assert (H1 : (m - (1 # 2)) * p <= x).
  { apply Qle_trans with (x / p * p); [apply Qmult_le_compat_r; lra|].
    rewrite Exp. apply Qle_refl. }
  assert (H2 : x <= (m + (1 # 2)) * p).
  { apply Qle_trans with (x / p * p); [|apply Qmult_le_compat_r; lra].
    rewrite Exp. apply Qle_refl. }
  set (mp := m * p) in *.
  assert (E1 : (m - (1 # 2)) * p == mp - (1 # 2) * p) by (unfold mp; ring).
  assert (E2 : (m + (1 # 2)) * p == mp + (1 # 2) * p) by (unfold mp; ring).
  rewrite E1 in H1. rewrite E2 in H2.
  rewrite Ep in Hlo. unfold u53.
  change (inject_Z (2 ^ 52)) with (4503599627370496 # 1) in Hlo.
  change (2 ^ 53)%positive with 9007199254740992%positive.
  lra.
Qed.

Lemma round_rel (x : Q) :
  F64.pow2 (- 1022) <= x → x <= F64.pow2 1023 →
  ∃ r, F64.round x = Fin r ∧ x * (1 - u53) <= r ∧ r <= x * (1 + u53).
Proof.
  intros Hmin Hmax.
  assert (Hx : 0 < x) by (pose proof (pow2_pos (- 1022)); lra).
  destruct (round_pos_rel x Hmin) as [H1 H2].
  unfold F64.round.
  destruct x as [n d]. cbn [Qnum].
  destruct n as [|n|n]; [by compute in Hx | | by compute in Hx].
  set (x := Z.pos n # d) in *.
  assert (Hno : Qle_bool (F64.pow2 1024) (F64.round_pos x) = false).
  { apply not_true_is_false. intros Hle. apply Qle_bool_iff in Hle.
    assert (E : F64.pow2 1024 == 2 * F64.pow2 1023) by apply (pow2_succ 1023).
    rewrite E in Hle. unfold u53 in H2.
    change (2 ^ 53)%positive with 9007199254740992%positive in H2.
    assert (Hx1 : x * (1 + (1 # 9007199254740992)) <= x * (3 # 2)).
    { apply Qmult_le_l; [done|]. done. }
    set (P := F64.pow2 1023) in *. lra. }
  rewrite Hno. exists (Qred (F64.round_pos x)).
  split; [done|]. by rewrite Qred_correct.
Qed.

(** The same, for the magnitudes that occur here. *)
Lemma round_mid (x : Q) :
  (1 # 1267650600228229401496703205376) <= x →
  x <= 1267650600228229401496703205376 →
  ∃ r, F64.round x = Fin r
       ∧ x * (1 - (1 # 9007199254740992)) <= r
       ∧ r <= x * (1 + (1 # 9007199254740992)).
Proof.
  intros Hlo Hhi. apply round_rel.
  - eapply Qle_trans; [|apply Hlo]. apply Qle_bool_imp_le. by vm_compute.
  - eapply Qle_trans; [apply Hhi|]. apply Qle_bool_imp_le. by vm_compute.
Qed.

Lemma round_zero (x : Q) : x == 0 → F64.round x = Fin 0.
Proof.
  intros E. unfold F64.round.
  assert (Qnum x = 0%Z) as ->; [|done].
  unfold Qeq in E. cbn in E. lia.
Qed.

Lemma div_fin (x y : Q) : 0 < y → F64.div (Fin x) (Fin y) = F64.round (x / y).
Proof.
  intros Hy. destruct y as [[|p|p] d]; [by compute in Hy | | by compute in Hy].
  done.
Qed.

Lemma of_int_rel (z : Z) :
  (1 ≤ z ≤ 2 ^ 63)%Z →
  ∃ r, F64.of_int z = Fin r
       ∧ inject_Z z * (1 - (1 # 9007199254740992)) <= r
       ∧ r <= inject_Z z * (1 + (1 # 9007199254740992)).
Proof.
  intros Hz. apply round_mid.
  - apply Qle_trans with 1; [done|]. change 1 with (inject_Z 1).
    rewrite <- Zle_Qle. lia.
  - apply Qle_trans with (inject_Z (2 ^ 63)); [rewrite <- Zle_Qle; lia|]. done.
Qed.

Lemma share_zero (total : Z) : (1 ≤ total ≤ 2 ^ 63)%Z → share total 0 = Fin 0.
Proof.
  intros Ht. unfold share.
  destruct (of_int_rel total Ht) as (g & -> & Hg1 & Hg2).
  assert (Hg : 0 < g).
  { assert (1 <= inject_Z total) by (change 1 with (inject_Z 1);
                                      rewrite <- Zle_Qle; lia). lra. }
  change (F64.of_int 0) with (Fin 0).
  rewrite (div_fin 0 g Hg), (round_zero (0 / g)) by (field; lra).
  by vm_compute.
Qed.

(** One group's share: the float64 nearest to k / 100, a number of two
    decimals, where the integer k is within a half (and the float64 noise)
    of 100 times the exact percentage; hence the share against the exact
    percentage. *)
Lemma share_pos (total s : Z) :
  (1 ≤ s ≤ total)%Z → (total ≤ 2 ^ 63)%Z →
  ∃ (k : Z) (r : Q),
    share total s = Fin r
    ∧ Fin r = F64.round (inject_Z k / 100)
    ∧ inject_Z k - ((1 # 2) + (1 # 10 ^ 10))
      <= 10000 * (inject_Z s / inject_Z total)
    ∧ 10000 * (inject_Z s / inject_Z total)
      <= inject_Z k + ((1 # 2) + (1 # 10 ^ 10))
    ∧ 100 * (inject_Z s / inject_Z total) - ((1 # 200) + (1 # 10 ^ 12)) <= r
    ∧ r <= 100 * (inject_Z s / inject_Z total) + ((1 # 200) + (1 # 10 ^ 12)).
Proof.
  intros Hs Ht. unfold share.
  destruct (of_int_rel s ltac:(lia)) as (a & -> & Ha1 & Ha2).
  destruct (of_int_rel total ltac:(lia)) as (g & -> & Hg1 & Hg2).
  assert (HS : 1 <= inject_Z s).
  { change 1 with (inject_Z 1). rewrite <- Zle_Qle. lia. }
  assert (HSG : inject_Z s <= inject_Z total) by (rewrite <- Zle_Qle; lia).
  assert (HG : inject_Z total <= 9223372036854775808).
  { change 9223372036854775808 with (inject_Z (2 ^ 63)).
    rewrite <- Zle_Qle. lia. }
  set (Sq := inject_Z s) in *. set (G := inject_Z total) in *.
  assert (Hg : 0 < g) by lra.
  set (T := Sq / G).
  assert (ET : T * G == Sq) by (unfold T; field; lra).
  assert (HT1 : T <= 1).
  { unfold T. apply Qle_shift_div_r; lra. }
  assert (HT0 : (1 # 9223372036854775808) <= T).
  { unfold T. apply Qle_shift_div_l; lra. }
  rewrite (div_fin a g Hg).
  (* the quotient of the two conversions *)
  assert (Hw1 : T * (1 - (1 # 2251799813685248)) <= a / g).
  { apply Qle_shift_div_l; [done|].
    apply Qle_trans with (T * (1 - (1 # 2251799813685248))
                          * (G * (1 + (1 # 9007199254740992)))).
    - apply Qmult_le_l; [lra | done].
    - assert (E : T * (1 - (1 # 2251799813685248))
                  * (G * (1 + (1 # 9007199254740992)))
                  == T * G * ((1 - (1 # 2251799813685248))
                              * (1 + (1 # 9007199254740992)))) by ring.
      rewrite E, ET. lra. }
  assert (Hw2 : a / g <= T * (1 + (1 # 2251799813685248))).
  { apply Qle_shift_div_r; [done|].
    apply Qle_trans with (T * (1 + (1 # 2251799813685248))
                          * (G * (1 - (1 # 9007199254740992)))).
    - assert (E : T * (1 + (1 # 2251799813685248))
                  * (G * (1 - (1 # 9007199254740992)))
                  == T * G * ((1 + (1 # 2251799813685248))
                              * (1 - (1 # 9007199254740992)))) by ring.
      rewrite E, ET. lra.
    - apply Qmult_le_l; [lra | done]. }
  set (w := a / g) in *.
  destruct (round_mid w ltac:(lra) ltac:(lra)) as (q & -> & Hq1 & Hq2).
  change (F64.of_int 100) with (Fin 100).
  cbn [F64.mul].
  destruct (round_mid (q * 100) ltac:(lra) ltac:(lra)) as (y & -> & Hy1 & Hy2).
  unfold F64.around. change (F64.of_int (10 ^ Z.of_nat 2)) with (Fin 100).
  cbn [F64.mul].
  destruct (round_mid (y * 100) ltac:(lra) ltac:(lra)) as (z & -> & Hz1 & Hz2).
  cbn [F64.frint]. rewrite div_fin by done.
  destruct (rint_spec z) as [Hk1 Hk2].
  pose proof (rint_nonneg z ltac:(lra)) as Hk0.
  destruct (Z.eq_dec (F64.rint z) 0%Z) as [E0|NE0].
  - rewrite E0 in *. exists 0%Z, 0. split; [by vm_compute|].
    split; [by vm_compute|].
    change (inject_Z 0) with 0 in *.
    change (10 ^ 12)%positive with 1000000000000%positive.
    change (10 ^ 10)%positive with 10000000000%positive. lra.
  - assert (HK : 1 <= inject_Z (F64.rint z)).
    { change 1 with (inject_Z 1). rewrite <- Zle_Qle. lia. }
    set (K := inject_Z (F64.rint z)) in *.
    assert (EK : K / 100 == K * (1 # 100)) by (field; lra).
    destruct (round_mid (K / 100)) as (r & Er & Hr1 & Hr2);
      [rewrite EK; lra | rewrite EK; lra |].
    rewrite EK in Hr1, Hr2.
    exists (F64.rint z), r. split; [exact Er|]. split; [symmetry; exact Er|].
    fold K.
    change (10 ^ 12)%positive with 1000000000000%positive.
    change (10 ^ 10)%positive with 10000000000%positive. lra.
Qed.

End binary64.

(** * Groups and vote shares *)

Lemma exact_sum_nonneg (l : list Z) :
  (∀ x, x ∈ l → (0 ≤ x)%Z) → (0 ≤ exact_sum l)%Z.
Proof.
  induction l as [|x l IH]; intros Hl; [cbn; lia|].
  assert (0 ≤ x)%Z by (apply Hl; left).
  assert (0 ≤ exact_sum l)%Z by (apply IH; intros y Hy; apply Hl; by right).
  change (exact_sum (x :: l)) with (x + exact_sum l)%Z. lia.
Qed.

Lemma votes_cons (ir : nat * Row) (df : DataFrame) :
  exact_sum (values (getcol Total_Votes (ir :: df)))
  = (Total_Votes ir.2 + exact_sum (values (getcol Total_Votes df)))%Z.
Proof. done. Qed.

Lemma votes_filter_le (P : nat * Row → Prop) `{!∀ ir, Decision (P ir)}
    (df : DataFrame) :
  votes_nonneg df →
  (0 ≤ exact_sum (values (getcol Total_Votes (filter P df)))
     ≤ exact_sum (values (getcol Total_Votes df)))%Z.
Proof.
  induction df as [|ir df IH]; intros Hnn; [cbn; lia|].
  assert (H0 : (0 ≤ Total_Votes ir.2)%Z) by (apply Hnn; left).
  assert (IH' := IH (λ jr Hjr, Hnn jr (list_elem_of_further _ _ _ Hjr))).
  rewrite filter_cons. destruct (decide (P ir)); rewrite ?votes_cons; lia.
Qed.

Lemma votes_group_split (k : string) (K : list string) (df : DataFrame) :
  k ∉ K →
  exact_sum (values (getcol Total_Votes
                       (filter (λ ir : nat * Row, Party ir.2 ∈ k :: K) df)))
  = (exact_sum (values (getcol Total_Votes
                          (filter (λ ir : nat * Row, Party ir.2 = k) df)))
     + exact_sum (values (getcol Total_Votes
                            (filter (λ ir : nat * Row, Party ir.2 ∈ K) df))))%Z.
Proof.
  intros Hk. induction df as [|ir df IH]; [done|].
  rewrite !filter_cons.
  destruct (decide (Party ir.2 = k)) as [E|NE].
  - rewrite decide_True by (rewrite E; left).
    rewrite (decide_False (P := Party ir.2 ∈ K)) by (by rewrite E).
    rewrite !votes_cons. lia.
  - destruct (decide (Party ir.2 ∈ K)) as [HK|HK].
    + rewrite decide_True by (by right).
      rewrite !votes_cons. lia.
    + rewrite decide_False; [done|].
      rewrite elem_of_cons. tauto.
Qed.

(** The sums of the groups of distinct keys add up to the sum of the rows
    that have one of the keys. *)
Lemma sum_groups (K : list string) (df : DataFrame) :
  NoDup K →
  exact_sum ((λ k, exact_sum (values (getcol Total_Votes
                       (filter (λ ir : nat * Row, Party ir.2 = k) df)))) <$> K)
  = exact_sum (values (getcol Total_Votes
                         (filter (λ ir : nat * Row, Party ir.2 ∈ K) df))).
Proof.
  induction 1 as [|k K Hk ND IH].
  - rewrite (proj2 (filter_nil_iff (λ ir : nat * Row, Party ir.2 ∈ []) df));
      [done|]. intros ir _ Hin. by apply elem_of_nil in Hin.
  - rewrite votes_group_split by done. rewrite <- IH. done.
Qed.

Lemma filter_all {A} (P : A → Prop) `{!∀ a, Decision (P a)} (l : list A) :
  (∀ a, a ∈ l → P a) → filter P l = l.
Proof.
  induction l as [|a l IH]; intros Hall; [done|].
  rewrite filter_cons_True by (apply Hall; left).
  f_equal. apply IH. intros b Hb. apply Hall. by right.
Qed.

Lemma party_keys (df : DataFrame) :
  NoDup (sorted (Series.unique (values (getcol Party df))))
  ∧ ∀ ir, ir ∈ df →
          Party ir.2 ∈ sorted (Series.unique (values (getcol Party df))).
Proof.
  split.
  - unfold sorted. rewrite merge_sort_Permutation. apply NoDup_unique_from.
  - intros ir Hir. rewrite elem_of_sorted, elem_of_unique.
    unfold values, getcol. rewrite <- list_fmap_compose.
    apply list_elem_of_fmap. by exists ir.
Qed.

(** The int64 sums of the groups, when nothing overflows. *)
Lemma group_sums_exact (df : DataFrame) :
  votes_nonneg df →
  (exact_sum (values (getcol Total_Votes df)) < 2 ^ 63)%Z →
  (λ g : string * list Z, Series.sum g.2) <$> groupby_Party df
  = (λ k, exact_sum (values (getcol Total_Votes
                       (filter (λ ir : nat * Row, Party ir.2 = k) df))))
      <$> sorted (Series.unique (values (getcol Party df))).
Proof.
  intros Hnn Hfit. unfold groupby_Party. rewrite <- list_fmap_compose.
  apply list_fmap_ext. intros _ k _. cbn.
  apply sum_exact.
  pose proof (votes_filter_le (λ ir : nat * Row, Party ir.2 = k) df Hnn).
  unfold int64. lia.
Qed.

Lemma group_sums_total (df : DataFrame) :
  votes_nonneg df →
  (exact_sum (values (getcol Total_Votes df)) < 2 ^ 63)%Z →
  let tv := (λ g : string * list Z, Series.sum g.2) <$> groupby_Party df in
  exact_sum tv = exact_sum (values (getcol Total_Votes df))
  ∧ Series.sum tv = exact_sum (values (getcol Total_Votes df))
  ∧ ∀ s, s ∈ tv → (0 ≤ s ≤ exact_sum (values (getcol Total_Votes df)))%Z.
Proof.
  intros Hnn Hfit tv. unfold tv. rewrite (group_sums_exact df Hnn Hfit).
  destruct (party_keys df) as [ND Hall].
  assert (E : exact_sum
                ((λ k, exact_sum (values (getcol Total_Votes
                         (filter (λ ir : nat * Row, Party ir.2 = k) df))))
                   <$> sorted (Series.unique (values (getcol Party df))))
              = exact_sum (values (getcol Total_Votes df))).
  { rewrite (sum_groups _ df ND). by rewrite (filter_all _ df Hall). }
  split; [done|]. split.
  - rewrite sum_exact; [done|]. rewrite E. unfold int64.
    pose proof (votes_filter_le (λ _, True) df Hnn). lia.
  - intros s Hs. apply list_elem_of_fmap in Hs as (k & -> & _).
    apply (votes_filter_le (λ ir : nat * Row, Party ir.2 = k) df Hnn).
Qed.

Section shares.
Local Open Scope Q_scope.

Lemma Qsum_cons (r : Q) (l : list Q) : Qsum (r :: l) = r + Qsum l.
Proof. done. Qed.

(** The shares of a column of sums, one by one and in total, against the
    exact percentages. *)
Lemma shares_close (total : Z) (l : list Z) :
  (1 ≤ total ≤ 2 ^ 63)%Z →
  (∀ s, s ∈ l → (0 ≤ s ≤ total)%Z) →
  ∃ shares : list Q,
    share total <$> l = Fin <$> shares
    ∧ Forall2 (λ s r, two_decimals total s r
                      ∧ Qabs (r - 100 * (inject_Z s / inject_Z total))
                        <= tolerance) l shares
    ∧ Qabs (Qsum shares - 100 * (inject_Z (exact_sum l) / inject_Z total))
      <= inject_Z (Z.of_nat (length l)) * tolerance.
Proof.
  intros Ht. 
  assert (HG : 1 <= inject_Z total).
  { change 1 with (inject_Z 1). rewrite <- Zle_Qle. lia. }
  induction l as [|s l IH]; intros Hl.
  - exists []. split; [done|]. split; [constructor|].
    assert (E : 0 / inject_Z total == 0) by (field; lra).
    change (Qsum []) with 0. change (inject_Z (exact_sum [])) with 0.
    change (inject_Z (Z.of_nat (length (@nil Z)))) with 0.
    rewrite E. apply Qabs_Qle_condition. set (t := tolerance). lra.
  - destruct IH as (shares & Esh & Hall & Hsum).
    { intros x Hx. apply Hl. by right. }
    assert (Hs : (0 ≤ s ≤ total)%Z) by (apply Hl; left).
    assert (Hone : ∃ r, share total s = Fin r
                        ∧ two_decimals total s r
                        ∧ Qabs (r - 100 * (inject_Z s / inject_Z total))
                          <= tolerance).
    { destruct (Z.eq_dec s 0%Z) as [->|NE].
      - exists 0. split; [by apply share_zero|].
        assert (E : inject_Z 0 / inject_Z total == 0) by (field; lra).
        split.
        + exists 0%Z. split; [by vm_compute|].
          rewrite E. apply Qabs_Qle_condition. by vm_compute.
        + rewrite E. apply Qabs_Qle_condition. by vm_compute.
      - destruct (share_pos total s) as (k & r & Er & Ek & Hk1 & Hk2 & H1 & H2);
          [lia|lia|].
        exists r. split; [done|]. split.
        + exists k. split; [done|]. apply Qabs_Qle_condition.
          fold half_cent in Hk1, Hk2 |- *.
          set (h := half_cent) in *.
          set (a := 10000 * (inject_Z s / inject_Z total)) in *. lra.
        + apply Qabs_Qle_condition.
          fold tolerance in H1, H2. set (t := tolerance) in *. lra. }
    destruct Hone as (r & Er & Hk & Hr).
    exists (r :: shares). split; [|split].
    + rewrite !fmap_cons. by rewrite Er, Esh.
    + by constructor.
    + rewrite Qsum_cons.
      assert (E : inject_Z (exact_sum (s :: l)) / inject_Z total
                  == inject_Z s / inject_Z total
                     + inject_Z (exact_sum l) / inject_Z total).
      { change (exact_sum (s :: l)) with (s + exact_sum l)%Z.
        rewrite inject_Z_plus. field. lra. }
      rewrite E.
      assert (En : inject_Z (Z.of_nat (length (s :: l)))
                   == inject_Z (Z.of_nat (length l)) + 1).
      { cbn [length]. rewrite Nat2Z.inj_succ, <- Z.add_1_r.
        by rewrite inject_Z_plus. }
      rewrite En.
      apply Qabs_Qle_condition in Hr, Hsum. apply Qabs_Qle_condition.
      set (a := inject_Z s / inject_Z total) in *.
      set (b := inject_Z (exact_sum l) / inject_Z total) in *.
      set (n := inject_Z (Z.of_nat (length l))) in *.
      set (t := tolerance) in *.
      assert (Ent : (n + 1) * t == n * t + t) by ring.
      rewrite Ent. set (nt := n * t) in *. lra.
Qed.

End shares.

(** On the samples the float64 model computes what the machine's binary64
    arithmetic computes, bit for bit (zero totals included). *)
Lemma binary64_model_agrees :
  forallb (λ total,
    forallb (λ s, float64_eqb (F64.of_prim (prim_percent total s))
                              (model_percent total s)) samples) samples
  = true.
Proof. vm_compute. reflexivity. Qed.

(** Shares rounded to two decimals need not add up to 100 exactly: three
    equal parties get 33.33 each. *)
Lemma shares_need_tolerance :
  ∃ shares : list Q,
    last (party_totals (read_csv three_way))
    = Some ("Vote Share (%)"%string, CFloat (Fin <$> shares))
    ∧ Forall (λ r, Qabs (r - (3333 # 100)) <= 1 # 10 ^ 12)%Q shares
    ∧ (Qsum shares < 100)%Q.
Proof.
  eexists [_; _; _]. split; [vm_compute; reflexivity|].
  split; [|by vm_compute].
  repeat constructor; apply Qle_bool_imp_le; by vm_compute.
Qed.

Lemma elem_of_party_keys (df : DataFrame) (p : string) :
  p ∈ sorted (Series.unique (values (getcol Party df)))
  ↔ ∃ ir, ir ∈ df ∧ Party ir.2 = p.
Proof.
  rewrite elem_of_sorted, elem_of_unique.
  unfold values, getcol. rewrite <- list_fmap_compose, list_elem_of_fmap.
  split.
  - intros (ir & -> & Hir). by exists ir.
  - intros (ir & Hir & <-). by exists ir.
Qed.

(** * Files in the domain *)

Lemma digits_from_nonneg (s : string) (acc v : Z) :
  digits_from acc s = Some v → (0 ≤ acc)%Z → (0 ≤ v)%Z.
Proof.
  revert acc. induction s as [|a s IH]; intros acc; cbn.
  - intros [= <-]. done.
  - destruct (is_digit a); [|done]. intros E Hacc. apply (IH _ E). lia.
Qed.

Lemma read_line_votes (l : Line) (r : Row) :
  read_line l = Some r → (0 ≤ Total_Votes r < 2 ^ 63)%Z.
Proof.
  unfold read_line. destruct (_ && _); [|done].
  destruct (digits_value (votes_field l)) as [v|] eqn:Ev; [|done].
  destruct (v <? 2 ^ 63)%Z eqn:Elt; [|done]. intros [= <-]. cbn.
  apply Z.ltb_lt in Elt. split; [|done].
  unfold digits_value in Ev. destruct (votes_field l); [done|].
  by apply (digits_from_nonneg _ _ _ Ev).
Qed.

(** A file in the domain has a row, and its votes are not negative and fit
    in a signed 64-bit integer. *)
Lemma parse_csv_rows (lines : list Line) (file : list Row) :
  parse_csv lines = Some file →
  file ≠ [] ∧ ∀ r, r ∈ file → (0 ≤ Total_Votes r < 2 ^ 63)%Z.
Proof.
  intros Hp.
  assert (HF : Forall2 (λ l r, read_line l = Some r) lines file).
  { apply mapM_Some_1. by destruct lines. }
  split.
  - intros ->. apply Forall2_length in HF. by destruct lines.
  - intros r Hr. apply list_elem_of_lookup_1 in Hr as [i Hi].
    destruct (Forall2_lookup_r _ _ _ _ _ HF Hi) as (l & _ & Hl).
    by apply (read_line_votes l).
Qed.

Lemma elem_of_read_csv (file : list Row) (ir : nat * Row) :
  ir ∈ read_csv file → ir.2 ∈ file.
Proof.
  intros Hir. apply list_elem_of_lookup_1 in Hir as [i Hi].
  unfold read_csv in Hi. rewrite list_lookup_imap in Hi.
  destruct (file !! i) as [r|] eqn:Er; [|done]. injection Hi as <-.
  by apply list_elem_of_lookup_2 in Er.
Qed.

Lemma parse_csv_frame (lines : list Line) (file : list Row) :
  parse_csv lines = Some file →
  read_csv file ≠ []
  ∧ votes_nonneg (read_csv file)
  ∧ ∀ ir, ir ∈ read_csv file → int64 (Total_Votes ir.2).
Proof.
  intros Hp. destruct (parse_csv_rows _ _ Hp) as [Hne Hv].
  split; [by destruct file|]. split.
  - intros ir Hir. by apply Hv, elem_of_read_csv.
  - intros ir Hir. unfold int64.
    pose proof (Hv _ (elem_of_read_csv _ _ Hir)). lia.
Qed.

(** C3 (aggregateByParty), as the code has it. For a file of plain names
    and decimal votes whose total is positive and fits in a signed 64-bit
    integer, tab 3 builds the totals table: one group per party that has a
    row, each with the votes of its rows and their exact sum; the total the
    shares are divided by is the sum of the groups' sums, which is the
    total of all votes; the share of a group is the float64 nearest to a
    number of two decimals, k / 100 with k the integer nearest to 100 times
    the exact percentage, hence within 0.005 (and 1e-12 of float64 noise)
    of the exact percentage; and the shares add up to 100 within that
    tolerance per group. *)
Theorem C3_vote_shares_sum_to_100 (lines : list Line) (file : list Row) :
  parse_csv lines = Some file →
  (0 < exact_sum (values (getcol Total_Votes (read_csv file))) < 2 ^ 63)%Z →
  let df := read_csv file in
  let groups := groupby_Party df in
  let tv := (λ g : string * list Z, Series.sum g.2) <$> groups in
  let total := Series.sum tv in
  NoDup (fst <$> groups)
  ∧ (∀ p, p ∈ fst <$> groups ↔ ∃ ir, ir ∈ df ∧ Party ir.2 = p)
  ∧ (∀ g, g ∈ groups →
          g.2 = values (getcol Total_Votes
                          (filter (λ ir : nat * Row, Party ir.2 = g.1) df))
          ∧ Series.sum g.2 = exact_sum g.2)
  ∧ total = exact_sum tv
  ∧ total = exact_sum (values (getcol Total_Votes df))
  ∧ (∃ shares : list Q,
       last (party_totals df)
       = Some ("Vote Share (%)"%string, CFloat (Fin <$> shares))
       ∧ Forall2 (λ s r, two_decimals total s r
                         ∧ Qabs (r - 100 * (inject_Z s / inject_Z total))
                           <= tolerance)%Q tv shares
       ∧ (Qabs (Qsum shares - 100)
          <= inject_Z (Z.of_nat (length groups)) * tolerance)%Q)
  ∧ ∀ (w : world) (data : ref),
      heap w !! data = Some (ODataFrame df) →
      ∃ l w', tab3 data w = (Ok l, w')
              ∧ heap w' !! l = Some (OTable (party_totals df)).
Proof.
  intros Hparse [Hpos Hfit] df groups tv total.
  destruct (parse_csv_frame _ _ Hparse) as (_ & Hnn & _). fold df in Hnn, Hpos, Hfit.
  destruct (group_sums_total df Hnn Hfit) as (Hex & Hsum & Hin).
  cbv zeta in Hex, Hsum, Hin. fold groups tv in Hex, Hsum, Hin.
  fold total in Hsum.
  assert (Ekeys : fst <$> groups
                  = sorted (Series.unique (values (getcol Party df)))).
  { unfold groups, groupby_Party. rewrite <- list_fmap_compose.
    apply list_fmap_id. }
  split; [rewrite Ekeys; apply party_keys|].
  split; [intros p; rewrite Ekeys; apply elem_of_party_keys|].
  split.
  { intros g Hg. unfold groups, groupby_Party in Hg.
    apply list_elem_of_fmap in Hg as (k & -> & _). split; [done|]. cbn.
    apply sum_exact.
    pose proof (votes_filter_le (λ ir : nat * Row, Party ir.2 = k) df Hnn).
    unfold int64. lia. }
  split; [by rewrite Hsum, Hex|]. split; [done|]. split.
  - assert (Hrange : (1 ≤ total ≤ 2 ^ 63)%Z) by lia.
    assert (Hin' : ∀ s, s ∈ tv → (0 ≤ s ≤ total)%Z) by (by rewrite Hsum).
    destruct (shares_close _ _ Hrange Hin') as (shares & Esh & Hall & Htot).
    exists shares. split; [|split; [done|]].
    + unfold party_totals. cbv zeta. cbn [last]. unfold vote_share.
      fold df groups tv total. by rewrite Esh.
    + assert (E : (100 * (inject_Z (exact_sum tv) / inject_Z total) == 100)%Q).
      { rewrite Hex, <- Hsum. field.
        assert (0 < inject_Z total)%Q; [|lra].
        change 0%Q with (inject_Z 0). rewrite <- Zlt_Qlt. lia. }
      rewrite E in Htot. unfold tv in Htot. by rewrite length_fmap in Htot.
  - intros w data Hd. rewrite (tab3_run _ _ _ Hd).
    eexists _, _. split; [done|]. cbn. apply lookup_insert_eq.
Qed.

Lemma scenario_votes_nonneg : votes_nonneg (read_csv scenario).
Proof.
  intros ir Hir. cbn in Hir.
  repeat (apply elem_of_cons in Hir as [->|Hir]); cbn; try lia.
  by apply elem_of_nil in Hir.
Defined.

Lemma C3_vote_shares_sum_to_100_witness :
  let tv := (λ g : string * list Z, Series.sum g.2)
              <$> groupby_Party (read_csv three_way) in
  ∃ shares : list Q,
    last (party_totals (read_csv three_way))
    = Some ("Vote Share (%)"%string, CFloat (Fin <$> shares))
    ∧ Forall2 (λ s r, two_decimals (Series.sum tv) s r
                      ∧ Qabs (r - 100 * (inject_Z s / inject_Z (Series.sum tv)))
                        <= tolerance)%Q tv shares
    ∧ (Qabs (Qsum shares - 100)
       <= inject_Z (Z.of_nat (length (groupby_Party (read_csv three_way))))
          * tolerance)%Q.
Proof.
  assert (Hp : parse_csv three_way_lines = Some three_way)
    by (vm_compute; reflexivity).
  assert (Htot : (0 < exact_sum (values (getcol Total_Votes (read_csv three_way)))
                  < 2 ^ 63)%Z) by (cbn; lia).
  exact (proj1 (proj2 (proj2 (proj2 (proj2 (proj2
           (C3_vote_shares_sum_to_100 three_way_lines three_way Hp Htot))))))).
Defined.

(** C3, the claim as written fails on a non-empty table whose votes are all
    zero: the total is 0, the share is 0/0, and tab 3 stores NaN, which adds
    up to nothing. *)
Lemma C3_counterexample :
  read_csv no_votes ≠ []
  ∧ groupby_Party (read_csv no_votes) = [("PartyA"%string, [0%Z])]
  ∧ last (party_totals (read_csv no_votes))
    = Some ("Vote Share (%)"%string, CFloat [NaN])
  ∧ (∃ l w, (load_data no_votes ≫= tab3) start = (Ok l, w)
            ∧ heap w !! l = Some (OTable (party_totals (read_csv no_votes))))
  ∧ F64.of_prim (prim_percent 0 0) = NaN.
Proof.
  split; [done|]. split; [by vm_compute|]. split; [by vm_compute|].
  split; [|by vm_compute].
  eexists _, _. split; [vm_compute; reflexivity|]. by vm_compute.
Qed.

Lemma C2_leading_party_first_max_witness :
  ∃ pre ir post,
    const_data (read_csv scenario) (Some "C1"%string) = pre ++ ir :: post
    ∧ (∀ jr, jr ∈ pre → (Total_Votes jr.2 < Total_Votes ir.2)%Z)
    ∧ (∀ jr, jr ∈ post → (Total_Votes jr.2 ≤ Total_Votes ir.2)%Z)
    ∧ Series.max (values (getcol Total_Votes
                            (const_data (read_csv scenario) (Some "C1"%string))))
      = SInt (Total_Votes ir.2)
    ∧ highest_votes (const_data (read_csv scenario) (Some "C1"%string))
      = Ok (Total_Votes ir.2)
    ∧ leading_party (const_data (read_csv scenario) (Some "C1"%string))
      = Ok (VStr (Party ir.2)).
Proof.
  apply (C2_leading_party_first_max scenario).
  - rewrite const_data_filter. apply sublist_filter.
  - vm_compute. discriminate.
Defined.

Lemma C6_max_bounds_and_attained_witness :
  ∃ m, Series.max (values (getcol Total_Votes (read_csv scenario))) = SInt m
       ∧ highest_votes (read_csv scenario) = Ok m
       ∧ (∀ ir, ir ∈ read_csv scenario → (Total_Votes ir.2 ≤ m)%Z)
       ∧ (∃ ir, ir ∈ read_csv scenario ∧ Total_Votes ir.2 = m).
Proof.
  apply (C6_max_bounds_and_attained (read_csv scenario)).
  vm_compute. discriminate.
Defined.

(** * binary64 rounding: exact cases *)

Section exact.
Local Open Scope Q_scope.

Lemma ilog2_unique (x : Q) (e : Z) :
  F64.pow2 e <= x → x < F64.pow2 (e + 1) → F64.ilog2 x = e.
Proof.
  intros Hlo Hhi.
  assert (Hx : 0 < x) by (pose proof (pow2_pos e); lra).
  destruct (ilog2_spec x Hx) as [Hlo' Hhi'].
  assert (e < F64.ilog2 x + 1)%Z by (apply pow2_lt_inv; lra).
  assert (F64.ilog2 x < e + 1)%Z by (apply pow2_lt_inv; lra).
  lia.
Qed.

Lemma ilog2_Qeq (x y : Q) : 0 < x → x == y → F64.ilog2 x = F64.ilog2 y.
Proof.
  intros Hx E. destruct (ilog2_spec x Hx) as [Hlo Hhi].
  symmetry. apply ilog2_unique; by rewrite <- E.
Qed.

Lemma rint_Qeq (x y : Q) : x == y → F64.rint x = F64.rint y.
Proof.
  intros E. unfold F64.rint. rewrite (Qfloor_comp x y E).
  assert (Ec : (x - inject_Z (Qfloor y) ?= 1 # 2)
               = (y - inject_Z (Qfloor y) ?= 1 # 2)).
  { apply Qcompare_comp; [by rewrite E | reflexivity]. }
  by rewrite Ec.
Qed.

Lemma round_pos_Qeq (x y : Q) :
  0 < x → x == y → F64.round_pos x == F64.round_pos y.
Proof.
  intros Hx E. unfold F64.round_pos. rewrite (ilog2_Qeq x y Hx E).
  set (p := F64.pow2 (Z.max (F64.ilog2 y - 52) (-1074))).
  assert (Hp : 0 < p) by apply pow2_pos.
  assert (Er : F64.rint (x / p) = F64.rint (y / p)).
  { apply rint_Qeq. by rewrite E. }
  by rewrite Er.
Qed.

(** Rounding looks at the number, not at the fraction that writes it. *)
Lemma round_Qeq (x y : Q) : x == y → F64.round x = F64.round y.
Proof.
  intros E. unfold F64.round.
  destruct x as [[|n|n] d], y as [[|m|m] c]; cbn [Qnum];
    try done; try (by compute in E).
  - assert (Hx : 0 < Z.pos n # d) by done.
    pose proof (round_pos_Qeq _ _ Hx E) as Er.
    assert (Eb : Qle_bool (F64.pow2 1024) (F64.round_pos (Z.pos n # d))
                 = Qle_bool (F64.pow2 1024) (F64.round_pos (Z.pos m # c))).
    { apply eq_true_iff_eq. rewrite !Qle_bool_iff. by rewrite Er. }
    rewrite Eb. clear Eb.
    destruct (Qle_bool (F64.pow2 1024) (F64.round_pos (Z.pos m # c))); [done|].
    f_equal. by apply Qred_complete.
  - assert (Hx : 0 < - (Z.neg n # d)) by done.
    assert (E' : - (Z.neg n # d) == - (Z.neg m # c)) by (by rewrite E).
    pose proof (round_pos_Qeq _ _ Hx E') as Er.
    assert (Eb : Qle_bool (F64.pow2 1024) (F64.round_pos (- (Z.neg n # d)))
                 = Qle_bool (F64.pow2 1024) (F64.round_pos (- (Z.neg m # c)))).
    { apply eq_true_iff_eq. rewrite !Qle_bool_iff. by rewrite Er. }
    rewrite Eb. clear Eb.
    destruct (Qle_bool (F64.pow2 1024) (F64.round_pos (- (Z.neg m # c))));
      [done|].
    f_equal. apply Qred_complete. by rewrite Er.
Qed.

Lemma rint_Z (k : Z) : F64.rint (inject_Z k) = k.
Proof.
  unfold F64.rint. rewrite Qfloor_Z.
  assert (E : (inject_Z k - inject_Z k ?= 1 # 2) = Lt).
  { apply Qlt_alt.
    assert (E0 : inject_Z k - inject_Z k == 0) by ring.
    by rewrite E0. }
  by rewrite E.
Qed.

Lemma Qred_inject_Z (k : Z) : Qred (inject_Z k) = inject_Z k.
Proof.
  apply Stdlib.QArith.Qcanon.Qred_identity. cbn. apply Z.gcd_1_r.
Qed.

(** An integer below 2^53 is a float64. *)
Lemma round_int_exact (m : Z) :
  (0 ≤ m < 2 ^ 53)%Z → F64.round (inject_Z m) = Fin (inject_Z m).
Proof.
  intros Hm. destruct (Z.eq_dec m 0%Z) as [->|NE]; [done|].
  assert (H1 : 1 <= inject_Z m).
  { change 1 with (inject_Z 1). rewrite <- Zle_Qle. lia. }
  assert (H2 : inject_Z m < F64.pow2 53).
  { change (F64.pow2 53) with (inject_Z (2 ^ 53)). rewrite <- Zlt_Qlt. lia. }
  assert (Hx : 0 < inject_Z m) by lra.
  destruct (ilog2_spec _ Hx) as [Hlo Hhi].
  set (e := F64.ilog2 (inject_Z m)) in *.
  assert (He0 : (0 ≤ e)%Z).
  { assert (0 < e + 1)%Z; [|lia]. apply pow2_lt_inv.
    change (F64.pow2 0) with 1. lra. }
  assert (He1 : (e < 53)%Z) by (apply pow2_lt_inv; lra).
  assert (Er : F64.round_pos (inject_Z m) == inject_Z m).
  { unfold F64.round_pos. fold e. rewrite Z.max_l by lia.
    set (j := (52 - e)%Z).
    assert (Ej : F64.pow2 (e - 52) * F64.pow2 j == 1).
    { rewrite <- pow2_add. unfold j. by replace (e - 52 + (52 - e))%Z with 0%Z by lia. }
    assert (Hp : 0 < F64.pow2 (e - 52)) by apply pow2_pos.
    assert (Ediv : inject_Z m / F64.pow2 (e - 52) == inject_Z (m * 2 ^ j)).
    { rewrite inject_Z_mult.
      assert (Epj : inject_Z (2 ^ j) == F64.pow2 j).
      { unfold F64.pow2. rewrite (proj2 (Z.leb_le 0 j)); [reflexivity|].
        unfold j. lia. }
      rewrite Epj. set (p := F64.pow2 (e - 52)) in *.
      set (q := F64.pow2 j) in *.
      apply Qmult_inj_r with (z := p); [lra|].
      assert (E1 : inject_Z m / p * p == inject_Z m) by (field; lra).
      assert (E2 : inject_Z m * q * p == inject_Z m * (p * q)) by ring.
      rewrite E1, E2, Ej. ring. }
    rewrite (rint_Qeq _ _ Ediv), rint_Z, <- Ediv.
    field. lra. }
  unfold F64.round. destruct m as [|p|p]; [done| |lia]. cbn [Qnum inject_Z].
  change (Z.pos p # 1) with (inject_Z (Z.pos p)).
  assert (Hno : Qle_bool (F64.pow2 1024) (F64.round_pos (inject_Z (Z.pos p)))
                = false).
  { apply not_true_is_false. intros Hle. apply Qle_bool_iff in Hle.
    rewrite Er in Hle.
    assert (F64.pow2 53 <= F64.pow2 1024) by (apply pow2_le; lia). lra. }
  rewrite Hno. f_equal.
  etrans; [apply Qred_complete, Er | apply Qred_inject_Z].
Qed.

Lemma of_int_exact (m : Z) :
  (0 ≤ m < 2 ^ 53)%Z → F64.of_int m = Fin (inject_Z m).
Proof. apply round_int_exact. Qed.

End exact.

(** * The mean of a column whose sum stays below 2^53 *)

Section mean.
Local Open Scope Q_scope.

Lemma add_fin (a b : Q) : F64.add (Fin a) (Fin b) = F64.round (a + b).
Proof. done. Qed.

(** The float64 accumulation is exact while the sums are below 2^53. *)
Lemma fsum_from (s : list Z) (acc : Z) :
  (∀ v, v ∈ s → (0 ≤ v)%Z) → (0 ≤ acc)%Z →
  (acc + exact_sum s < 2 ^ 53)%Z →
  foldl (λ a v, F64.add a (F64.of_int v)) (Fin (inject_Z acc)) s
  = Fin (inject_Z (acc + exact_sum s)).
Proof.
  revert acc. induction s as [|v s IH]; intros acc Hs Hacc Hfit.
  - cbn. by rewrite Z.add_0_r.
  - change (exact_sum (v :: s)) with (v + exact_sum s)%Z in *.
    assert (Hv : (0 ≤ v)%Z) by (apply Hs; left).
    assert (Hrest : (0 ≤ exact_sum s)%Z).
    { apply exact_sum_nonneg. intros x Hx. apply Hs. by right. }
    cbn [foldl]. rewrite of_int_exact by lia. rewrite add_fin.
    rewrite (round_Qeq _ (inject_Z (acc + v))) by (by rewrite inject_Z_plus).
    rewrite round_int_exact by lia.
    rewrite IH; [f_equal; f_equal; lia | | lia | lia].
    intros x Hx. apply Hs. by right.
Qed.

Lemma fsum_exact (s : list Z) :
  (∀ v, v ∈ s → (0 ≤ v)%Z) → (exact_sum s < 2 ^ 53)%Z →
  Series.fsum s = Fin (inject_Z (exact_sum s)).
Proof. intros Hs Hfit. by apply (fsum_from s 0). Qed.

Lemma sub_fin (a b : Q) : F64.sub (Fin a) (Fin b) = F64.round (a + Qred (- b)).
Proof. done. Qed.

(** One step of the compensated sum below 2^53: the sum is exact and the
    compensation stays 0. *)
Lemma kahan_step_exact (acc v : Z) :
  (0 ≤ acc)%Z → (0 ≤ v)%Z → (acc + v < 2 ^ 53)%Z →
  Series.kahan_step (Fin (inject_Z acc), Fin 0) v
  = (Fin (inject_Z (acc + v)), Fin 0).
Proof.
  intros Hacc Hv Hfit. unfold Series.kahan_step. cbv zeta. cbn [fst snd].
  rewrite of_int_exact by lia.
  assert (Ey : F64.sub (Fin (inject_Z v)) (Fin 0) = Fin (inject_Z v)).
  { rewrite sub_fin, (round_Qeq _ (inject_Z v)).
    - apply round_int_exact. lia.
    - rewrite Qred_correct. ring. }
  rewrite Ey.
  assert (Et : F64.add (Fin (inject_Z acc)) (Fin (inject_Z v))
               = Fin (inject_Z (acc + v))).
  { rewrite add_fin, (round_Qeq _ (inject_Z (acc + v)))
      by (by rewrite inject_Z_plus).
    apply round_int_exact. lia. }
  rewrite Et.
  assert (Ed : F64.sub (Fin (inject_Z (acc + v))) (Fin (inject_Z acc))
               = Fin (inject_Z v)).
  { rewrite sub_fin, (round_Qeq _ (inject_Z v)).
    - apply round_int_exact. lia.
    - rewrite Qred_correct, inject_Z_plus. ring. }
  rewrite Ed.
  assert (Ec : F64.sub (Fin (inject_Z v)) (Fin (inject_Z v)) = Fin 0).
  { rewrite sub_fin. apply round_zero. rewrite Qred_correct. ring. }
  by rewrite Ec.
Qed.

Lemma kahan_from (s : list Z) (acc : Z) :
  (∀ v, v ∈ s → (0 ≤ v)%Z) → (0 ≤ acc)%Z →
  (acc + exact_sum s < 2 ^ 53)%Z →
  foldl Series.kahan_step (Fin (inject_Z acc), Fin 0) s
  = (Fin (inject_Z (acc + exact_sum s)), Fin 0).
Proof.
  revert acc. induction s as [|v s IH]; intros acc Hs Hacc Hfit.
  - cbn. by rewrite Z.add_0_r.
  - change (exact_sum (v :: s)) with (v + exact_sum s)%Z in *.
    assert (Hv : (0 ≤ v)%Z) by (apply Hs; left).
    assert (Hrest : (0 ≤ exact_sum s)%Z).
    { apply exact_sum_nonneg. intros x Hx. apply Hs. by right. }
    cbn [foldl]. rewrite kahan_step_exact by lia.
    rewrite IH; [do 3 f_equal; lia | | lia | lia].
    intros x Hx. apply Hs. by right.
Qed.

(** Below 2^53 the mean of a group in [agg] and [Series.mean] of the same
    values are one float64: the nearest to the exact mean. *)
Lemma means_exact (s : list Z) :
  s ≠ [] → (∀ v, v ∈ s → (0 ≤ v)%Z) → (exact_sum s < 2 ^ 53)%Z →
  (Z.of_nat (length s) < 2 ^ 53)%Z →
  Series.group_mean s
  = F64.round (inject_Z (exact_sum s) / inject_Z (Z.of_nat (length s)))
  ∧ Series.mean s
    = F64.round (inject_Z (exact_sum s) / inject_Z (Z.of_nat (length s))).
Proof.
  intros Hne Hs Hfit Hlen.
  pose proof (kahan_from s 0 Hs ltac:(lia) ltac:(lia)) as Hk.
  change (inject_Z 0) with 0 in Hk. rewrite Z.add_0_l in Hk.
  assert (Hn : (1 ≤ Z.of_nat (length s))%Z).
  { destruct s; [done|]. cbn [length]. lia. }
  assert (Hpos : 0 < inject_Z (Z.of_nat (length s))).
  { change 0 with (inject_Z 0). rewrite <- Zlt_Qlt. lia. }
  unfold Series.group_mean, Series.mean.
  destruct s as [|v s'] eqn:Es; [done|]. rewrite <- Es in *.
  rewrite Hk, (fsum_exact s Hs Hfit). cbn [fst].
  rewrite of_int_exact by lia. by rewrite div_fin.
Qed.

Lemma Qfloor_between (r : Q) (k : Z) :
  inject_Z k <= r → r < inject_Z (k + 1) → Qfloor r = k.
Proof.
  intros Hlo Hhi.
  assert (H1 : (k ≤ Qfloor r)%Z).
  { rewrite <- (Qfloor_Z k). by apply Qfloor_resp_le. }
  assert (H2 : (Qfloor r < k + 1)%Z).
  { rewrite Zlt_Qlt. eapply Qle_lt_trans; [apply Qfloor_le | done]. }
  lia.
Qed.

Lemma quot_floor (r : Q) : 0 <= r → Z.quot (Qnum r) (Z.pos (Qden r)) = Qfloor r.
Proof.
  intros Hr. destruct r as [n d]. cbn.
  apply Z.quot_div_nonneg; [|done].
  unfold Qle in Hr. cbn in Hr. lia.
Qed.

(** The float64 quotient of two integers below 2^53, truncated, is their
    integer quotient. *)
Lemma quotient_floor (T n : Z) :
  (0 ≤ T < 2 ^ 53)%Z → (1 ≤ n < 2 ^ 53)%Z →
  ∃ r, F64.round (inject_Z T / inject_Z n) = Fin r
       ∧ Z.quot (Qnum r) (Z.pos (Qden r)) = (T `div` n)%Z.
Proof.
  intros HT Hn.
  assert (HN : 1 <= inject_Z n).
  { change 1 with (inject_Z 1). rewrite <- Zle_Qle. lia. }
  assert (HN2 : inject_Z n <= 9007199254740992).
  { change 9007199254740992 with (inject_Z (2 ^ 53)). rewrite <- Zle_Qle. lia. }
  assert (HT0 : 0 <= inject_Z T).
  { change 0 with (inject_Z 0). rewrite <- Zle_Qle. lia. }
  assert (HT2 : inject_Z T + 1 <= 9007199254740992).
  { change 1 with (inject_Z 1). rewrite <- inject_Z_plus.
    change 9007199254740992 with (inject_Z (2 ^ 53)). rewrite <- Zle_Qle. lia. }
  pose proof (Z.div_mod T n ltac:(lia)) as Hdm.
  pose proof (Z.mod_pos_bound T n ltac:(lia)) as Hmod.
  set (k := (T `div` n)%Z) in *.
  assert (Hk0 : (0 ≤ k)%Z) by (apply Z.div_pos; lia).
  assert (Hk : (k ≤ T)%Z) by nia.
  destruct (Z.eq_dec (T `mod` n)%Z 0%Z) as [E0|NE0].
  - (* the quotient is an integer *)
    assert (Ex : inject_Z T / inject_Z n == inject_Z k).
    { assert (ET : T = (n * k)%Z) by lia.
      rewrite ET, inject_Z_mult. field. lra. }
    exists (inject_Z k). split.
    + rewrite (round_Qeq _ _ Ex). apply round_int_exact. lia.
    + cbn. apply Z.quot_1_r.
  - set (x := inject_Z T / inject_Z n).
    assert (ExN : x * inject_Z n == inject_Z T) by (unfold x; field; lra).
    assert (HT1 : 1 <= inject_Z T).
    { change 1 with (inject_Z 1). rewrite <- Zle_Qle. lia. }
    assert (Hx1 : (1 # 9007199254740992) <= x).
    { unfold x. apply Qle_shift_div_l; lra. }
    assert (Hx2 : x <= 9007199254740992).
    { unfold x. apply Qle_shift_div_r; [lra|].
      apply Qle_trans with (9007199254740992 * 1); [lra|].
      apply Qmult_le_l; [done | lra]. }
    destruct (round_mid x ltac:(lra) ltac:(lra)) as (r & Er & Hr1 & Hr2).
    exists r. split; [done|].
    assert (HrN1 : inject_Z T * (1 - (1 # 9007199254740992)) <= r * inject_Z n).
    { rewrite <- ExN.
      assert (E : x * inject_Z n * (1 - (1 # 9007199254740992))
                  == x * (1 - (1 # 9007199254740992)) * inject_Z n) by ring.
      rewrite E. apply Qmult_le_compat_r; lra. }
    assert (HrN2 : r * inject_Z n <= inject_Z T * (1 + (1 # 9007199254740992))).
    { rewrite <- ExN.
      assert (E : x * inject_Z n * (1 + (1 # 9007199254740992))
                  == x * (1 + (1 # 9007199254740992)) * inject_Z n) by ring.
      rewrite E. apply Qmult_le_compat_r; lra. }
    assert (HTk1 : inject_Z k * inject_Z n + 1 <= inject_Z T).
    { change 1 with (inject_Z 1).
      rewrite <- inject_Z_mult, <- inject_Z_plus, <- Zle_Qle. lia. }
    assert (HTk2 : inject_Z T + 1 <= inject_Z (k + 1) * inject_Z n).
    { change 1 with (inject_Z 1) at 1.
      rewrite <- inject_Z_mult, <- inject_Z_plus, <- Zle_Qle. lia. }
    assert (Hlo : inject_Z k <= r).
    { apply Qmult_le_r with (z := inject_Z n); [lra|].
      set (kn := inject_Z k * inject_Z n) in *.
      set (rn := r * inject_Z n) in *. lra. }
    assert (Hhi : r < inject_Z (k + 1)).
    { apply Qmult_lt_r with (z := inject_Z n); [lra|].
      set (kn := inject_Z (k + 1) * inject_Z n) in *.
      set (rn := r * inject_Z n) in *. lra. }
    rewrite quot_floor.
    + by apply Qfloor_between.
    + apply Qle_trans with (inject_Z k); [|done].
      change 0 with (inject_Z 0). rewrite <- Zle_Qle. lia.
Qed.

End mean.

(** The average a view shows: the integer quotient of its total by its
    number of rows, for totals and sizes below 2^53. *)
Lemma average_votes_floor (S : DataFrame) :
  S ≠ [] → votes_nonneg S →
  (exact_sum (values (getcol Total_Votes S)) < 2 ^ 53)%Z →
  (Z.of_nat (length S) < 2 ^ 53)%Z →
  average_votes S
  = Ok (exact_sum (values (getcol Total_Votes S)) `div` Z.of_nat (length S))%Z.
Proof.
  intros HS Hnn Hfit Hlen. unfold average_votes.
  set (s := values (getcol Total_Votes S)) in *.
  assert (Hs : ∀ v, v ∈ s → (0 ≤ v)%Z).
  { intros v Hv. apply elem_of_votes in Hv as (ir & Hir & <-). by apply Hnn. }
  assert (Els : length s = length S).
  { unfold s, values, getcol. by rewrite !length_fmap. }
  assert (Hne : s ≠ []).
  { intros E. rewrite E in Els. destruct S; [done|]. cbn in Els. lia. }
  unfold Series.mean. destruct s as [|v s'] eqn:Es; [done|]. rewrite <- Es in *.
  rewrite (fsum_exact s Hs Hfit), Els.
  assert (Hn : (1 ≤ Z.of_nat (length S))%Z).
  { destruct S; [done|]. cbn [length]. lia. }
  rewrite of_int_exact by lia.
  rewrite div_fin.
  2:{ change 0%Q with (inject_Z 0). rewrite <- Zlt_Qlt. lia. }
  pose proof (exact_sum_nonneg s Hs) as H0.
  destruct (quotient_floor (exact_sum s) (Z.of_nat (length S)))
    as (r & -> & Hr); [lia | lia |].
  cbn. by rewrite Hr.
Qed.

(** * The metrics of a non-empty view *)

Lemma modest_filter (P : nat * Row → Prop) `{!∀ ir, Decision (P ir)}
    (df : DataFrame) :
  modest df → modest (filter P df).
Proof.
  intros (Hnn & Hfit & Hlen). split; [|split].
  - intros ir Hir. apply Hnn. by apply list_elem_of_filter in Hir as [_ ?].
  - pose proof (votes_filter_le P df Hnn). lia.
  - pose proof (length_filter P df). lia.
Qed.

Lemma highest_ge_average (S : DataFrame) (m : Z) :
  S ≠ [] →
  (∀ ir, ir ∈ S → (Total_Votes ir.2 ≤ m)%Z) →
  (exact_sum (values (getcol Total_Votes S)) ≤ Z.of_nat (length S) * m)%Z.
Proof.
  intros _ Hm. induction S as [|ir S IH]; [cbn; lia|].
  rewrite votes_cons. cbn [length].
  assert (Total_Votes ir.2 ≤ m)%Z by (apply Hm; left).
  assert (exact_sum (values (getcol Total_Votes S)) ≤ Z.of_nat (length S) * m)%Z.
  { apply IH. intros jr Hjr. apply Hm. by right. }
  lia.
Qed.

Lemma highest_votes_ok (S : DataFrame) :
  S ≠ [] →
  ∃ m, highest_votes S = Ok m
       ∧ (∀ ir, ir ∈ S → (Total_Votes ir.2 ≤ m)%Z)
       ∧ ∃ ir, ir ∈ S ∧ Total_Votes ir.2 = m.
Proof.
  intros HS.
  destruct (idxmax_split S HS) as (pre & ir & post & -> & Hpre & Hpost & _).
  exists (Total_Votes ir.2). split; [|split].
  - unfold highest_votes. rewrite votes_app, max_of_split; [done| |].
    + intros x Hx. apply elem_of_votes in Hx as (jr & Hjr & <-). by apply Hpre.
    + intros x Hx. apply elem_of_votes in Hx as (jr & Hjr & <-).
      by apply Hpost.
  - intros jr Hjr. apply elem_of_app in Hjr as [Hjr|Hjr].
    + specialize (Hpre _ Hjr). lia.
    + apply elem_of_cons in Hjr as [->|Hjr]; [lia | by apply Hpost].
  - exists ir. split; [|done]. apply elem_of_app. right. left.
Qed.

(** The metrics row of tab 1 on a non-empty modest view. *)
Lemma tab1_metrics_ok (l : ref) (S : DataFrame) (w : world) :
  heap w !! l = Some (ODataFrame S) →
  S ≠ [] → modest S →
  ∃ m, highest_votes S = Ok m
       ∧ (∀ ir, ir ∈ S → (Total_Votes ir.2 ≤ m)%Z)
       ∧ tab1_metrics l w
         = (Ok tt,
            mkWorld (heap w)
              (screen w
               ++ [ Metric "Total Constituencies" (VInt (total_constituencies S));
                    Metric "Total Votes"
                      (VInt (exact_sum (values (getcol Total_Votes S))));
                    Metric "Average Votes"
                      (VInt (exact_sum (values (getcol Total_Votes S))
                             `div` Z.of_nat (length S)));
                    Metric "Highest Votes" (VInt m) ])).
Proof.
  intros Hl HS (Hnn & Hfit & Hlen).
  destruct (highest_votes_ok S HS) as (m & Hm & Hle & _).
  exists m. split; [done|]. split; [done|].
  unfold tab1_metrics.
  rewrite (bind_ok _ _ _ _ _ (get_frame_ok _ _ _ Hl)).
  rewrite (average_votes_floor S HS Hnn Hfit Hlen), Hm.
  unfold total_votes. rewrite sum_exact.
  2:{ pose proof (exact_sum_nonneg (values (getcol Total_Votes S))) as H0.
      unfold int64. split; [|lia].
      etrans; [|apply H0]; [lia|].
      intros v Hv. apply elem_of_votes in Hv as (ir & Hir & <-). by apply Hnn. }
  unfold mbind, M_bind, bind, st_metric, lift. cbn.
  by rewrite <- !app_assoc.
Qed.

(** X1 (tab 1, the key metrics of a non-empty view). On a non-empty view
    with non-negative votes whose total and size are below 2^53 the four
    metrics are rendered and the row ends normally: the number of distinct
    constituencies, the exact total, the total divided by the number of
    rows and rounded down, and the maximum, which is the votes of some row
    and at least the votes of every row; the average is never above the
    maximum. *)
Theorem X1_party_view_metrics (l : ref) (S : DataFrame) (w : world) :
  heap w !! l = Some (ODataFrame S) →
  S ≠ [] → modest S →
  ∃ average highest : Z,
    tab1_metrics l w
    = (Ok tt,
       mkWorld (heap w)
         (screen w
          ++ [ Metric "Total Constituencies"
                 (VInt (Z.of_nat (distinct (values (getcol Constituency S)))));
               Metric "Total Votes"
                 (VInt (exact_sum (values (getcol Total_Votes S))));
               Metric "Average Votes" (VInt average);
               Metric "Highest Votes" (VInt highest) ]))
    ∧ (average * Z.of_nat (length S)
       ≤ exact_sum (values (getcol Total_Votes S))
       < (average + 1) * Z.of_nat (length S))%Z
    ∧ (0 ≤ average ≤ highest)%Z
    ∧ (∀ ir, ir ∈ S → (Total_Votes ir.2 ≤ highest)%Z)
    ∧ (∃ ir, ir ∈ S ∧ Total_Votes ir.2 = highest).
Proof.
  intros Hl HS Hmod.
  destruct (tab1_metrics_ok l S w Hl HS Hmod) as (m & Hm & Hle & Hrun).
  assert (Hatt : ∃ ir, ir ∈ S ∧ Total_Votes ir.2 = m).
  { destruct (highest_votes_ok S HS) as (m' & Hm' & _ & Hatt).
    rewrite Hm in Hm'. by injection Hm' as <-. }
  destruct Hmod as (Hnn & Hfit & Hlen).
  set (T := exact_sum (values (getcol Total_Votes S))) in *.
  set (n := Z.of_nat (length S)) in *.
  assert (Hn : (1 ≤ n)%Z) by (unfold n; destruct S; [done | cbn [length]; lia]).
  assert (HT : (0 ≤ T)%Z).
  { apply exact_sum_nonneg. intros v Hv.
    apply elem_of_votes in Hv as (ir & Hir & <-). by apply Hnn. }
  pose proof (highest_ge_average S m HS Hle) as Hsum. fold T n in Hsum.
  pose proof (Z.div_mod T n ltac:(lia)) as Hdm.
  pose proof (Z.mod_pos_bound T n ltac:(lia)) as Hmodn.
  exists (T `div` n)%Z, m. split; [|split; [|split; [|done]]].
  - rewrite Hrun. unfold total_constituencies. by rewrite length_unique.
  - nia.
  - split; [apply Z.div_pos; lia|].
    apply Z.div_le_upper_bound; lia.
Qed.

Lemma scenario_modest : modest (read_csv scenario).
Proof.
  split; [apply scenario_votes_nonneg|]. split; cbn; lia.
Defined.

Lemma X1_party_view_metrics_witness :
  ∃ average highest : Z,
    tab1_metrics 7 (world_with 7 (read_csv scenario))
    = (Ok tt,
       mkWorld (heap (world_with 7 (read_csv scenario)))
         (screen (world_with 7 (read_csv scenario))
          ++ [ Metric "Total Constituencies"
                 (VInt (Z.of_nat (distinct (values (getcol Constituency
                                                      (read_csv scenario))))));
               Metric "Total Votes"
                 (VInt (exact_sum (values (getcol Total_Votes
                                             (read_csv scenario)))));
               Metric "Average Votes" (VInt average);
               Metric "Highest Votes" (VInt highest) ]))
    ∧ (average * Z.of_nat (length (read_csv scenario))
       ≤ exact_sum (values (getcol Total_Votes (read_csv scenario)))
       < (average + 1) * Z.of_nat (length (read_csv scenario)))%Z
    ∧ (0 ≤ average ≤ highest)%Z
    ∧ (∀ ir, ir ∈ read_csv scenario → (Total_Votes ir.2 ≤ highest)%Z)
    ∧ (∃ ir, ir ∈ read_csv scenario ∧ Total_Votes ir.2 = highest).
Proof.
  apply X1_party_view_metrics.
  - reflexivity.
  - vm_compute. discriminate.
  - apply scenario_modest.
Defined.

(** * The sidebar *)

Lemma selected_party_key (pick : nat) :
  ∃ p color, st_selectbox (fst <$> PARTY_COLORS) pick = Some p
             ∧ p ∈ fst <$> PARTY_COLORS
             ∧ party_color (Some p) = Ok color.
Proof.
  destruct pick as [|[|[|[|pick]]]]; eexists _, _;
    (split; [reflexivity|]); (split; [|reflexivity]);
    cbn; rewrite !elem_of_cons; tauto.
Qed.

Lemma constituencies_nil (df : DataFrame) : constituencies df = [] ↔ df = [].
Proof.
  split.
  - intros E. destruct df as [|ir df]; [done|].
    assert (Hin : Constituency ir.2 ∈ constituencies (ir :: df)).
    { apply elem_of_constituencies. exists ir. split; [left|done]. }
    rewrite E in Hin. by apply elem_of_nil in Hin.
  - by intros ->.
Qed.

Lemma sidebar_run (data : ref) (df : DataFrame) (ui : nat * nat) (w : world) :
  heap w !! data = Some (ODataFrame df) →
  sidebar data ui w
  = (Ok (st_selectbox (fst <$> PARTY_COLORS) ui.1,
         st_selectbox (constituencies df) ui.2), w).
Proof.
  intros Hd. unfold sidebar. cbv zeta.
  destruct (selected_party_key ui.1) as (p & color & Hp & _ & Hcol).
  rewrite Hp, Hcol.
  rewrite bind_run. unfold lift.
  by rewrite (bind_ok _ _ _ _ _ (get_frame_ok _ _ _ Hd)).
Qed.

(** X2 (the sidebar). On a file of plain names and decimal votes,
    whatever the user picks, the sidebar ends normally and changes nothing:
    the selected party is one of the four keys, so the colour lookup never
    raises KeyError, and the selected constituency is the constituency of
    some row. *)
Theorem X2_sidebar_selections
    (lines : list Line) (file : list Row)
    (data : ref) (ui : nat * nat) (w : world) :
  parse_csv lines = Some file →
  heap w !! data = Some (ODataFrame (read_csv file)) →
  ∃ p c : string,
    sidebar data ui w = (Ok (Some p, Some c), w)
    ∧ p ∈ fst <$> PARTY_COLORS
    ∧ (∃ color, party_color (Some p) = Ok color)
    ∧ (∃ ir, ir ∈ read_csv file ∧ Constituency ir.2 = c).
Proof.
  intros Hparse Hd.
  destruct (parse_csv_frame _ _ Hparse) as (Hne & _).
  destruct (selected_party_key ui.1) as (p & color & Hp & Hin & Hcol).
  destruct (st_selectbox_Some (constituencies (read_csv file)) ui.2)
    as [c Hc]; [by rewrite constituencies_nil|].
  exists p, c.
  split; [by rewrite (sidebar_run _ _ _ _ Hd), Hp, Hc|].
  split; [done|]. split; [by exists color|].
  apply st_selectbox_elem in Hc. by apply elem_of_constituencies.
Qed.

Lemma X2_sidebar_selections_witness :
  ∃ p c : string,
    sidebar 7 (2, 1) (world_with 7 (read_csv scenario))
    = (Ok (Some p, Some c), world_with 7 (read_csv scenario))
    ∧ p ∈ fst <$> PARTY_COLORS
    ∧ (∃ color, party_color (Some p) = Ok color)
    ∧ (∃ ir, ir ∈ read_csv scenario ∧ Constituency ir.2 = c).
Proof.
  apply (X2_sidebar_selections scenario_lines scenario).
  - vm_compute. reflexivity.
  - reflexivity.
Defined.

(** * The run of the script *)

Lemma party_data_modest (df : DataFrame) sel :
  modest df → modest (party_data df sel).
Proof. intros Hm. rewrite party_data_filter. by apply modest_filter. Qed.

Lemma tab1_ok (data : ref) (df : DataFrame) sel color (w : world) :
  heap w !! data = Some (ODataFrame df) →
  modest df → party_data df sel ≠ [] →
  party_color sel = Ok color →
  ∃ w', tab1 data sel w = (Ok (after_view (party_data df sel) w).1, w')
        ∧ heap w' = heap (after_view (party_data df sel) w).2
        ∧ label_of <$> screen w'
          = (label_of <$> screen w)
            ++ [ "Total Constituencies"; "Total Votes"; "Average Votes";
                 "Highest Votes" ]%string.
Proof.
  intros Hd Hmod Hne Hcol. rewrite (tab1_run _ _ _ _ Hd). cbv zeta.
  destruct (tab1_metrics_ok _ _ _ (after_view_lookup (party_data df sel) w) Hne
              (party_data_modest df sel Hmod)) as (m & _ & _ & ->).
  rewrite Hcol. eexists. split; [done|]. split; [done|].
  cbn [screen]. rewrite after_view_screen, fmap_app. done.
Qed.

Lemma tab2_ok_labels (file : list Row) (c : string) (data : ref) (w : world) :
  c ∈ constituencies (read_csv file) →
  heap w !! data = Some (ODataFrame (read_csv file)) →
  ∃ w', tab2 data (Some c) w
        = (Ok (after_view (const_data (read_csv file) (Some c)) w).1, w')
        ∧ heap w' = heap (after_view (const_data (read_csv file) (Some c)) w).2
        ∧ label_of <$> screen w'
          = (label_of <$> screen w)
            ++ [ "Total Candidates"; "Total Votes Cast"; "Leading Party" ]%string.
Proof.
  intros Hc Hd. rewrite (tab2_run _ _ _ _ Hd). cbv zeta.
  destruct (leading_party_ok (const_data (read_csv file) (Some c)))
    as (ir & _ & Hlead);
    [apply const_data_NoDup | by apply const_data_nonempty|].
  rewrite (tab2_metrics_ok _ _ _ _ (after_view_lookup _ _) Hlead).
  eexists. split; [done|]. split; [done|].
  cbn [screen]. rewrite after_view_screen, fmap_app. done.
Qed.

Lemma load_data_run (file : list Row) (w : world) :
  load_data file w
  = (Ok (fresh (dom (heap w))),
     mkWorld (<[fresh (dom (heap w)) := ODataFrame (read_csv file)]> (heap w))
             (screen w)).
Proof. done. Qed.

(** X3 (the run of the script's statements). On a file of plain names and
    decimal votes, with the calls into Streamlit and plotly taken to
    return: when the selected party has no row the run ends in tab 1 with
    ValueError, after the two zero metrics, and tabs 2 and 3 show nothing;
    when it has a row, and the total and size of the table are below 2^53,
    no statement of the script raises and the ten metrics of the three
    tabs are shown in order. *)
Theorem X3_script_outcome
    (lines : list Line) (file : list Row) (ui : nat * nat) :
  parse_csv lines = Some file →
  (party_data (read_csv file) (st_selectbox (fst <$> PARTY_COLORS) ui.1) ≠ [] →
   modest (read_csv file) →
   (script file ui start).1 = Ok tt
   ∧ label_of <$> screen (script file ui start).2
     = [ "Total Constituencies"; "Total Votes"; "Average Votes";
         "Highest Votes"; "Total Candidates"; "Total Votes Cast";
         "Leading Party"; "Total Constituencies"; "Total Votes Cast";
         "Total Candidates" ]%string)
  ∧ (party_data (read_csv file) (st_selectbox (fst <$> PARTY_COLORS) ui.1) = [] →
     (script file ui start).1 = Raise ValueError
     ∧ screen (script file ui start).2
       = [ Metric "Total Constituencies" (VInt 0);
           Metric "Total Votes" (VInt 0) ]).
Proof.
  intros _.
  set (sp := st_selectbox (fst <$> PARTY_COLORS) ui.1).
  set (l0 := fresh (dom (heap start))).
  set (w0 := mkWorld (<[l0 := ODataFrame (read_csv file)]> (heap start)) []).
  assert (Hd0 : heap w0 !! l0 = Some (ODataFrame (read_csv file))).
  { cbn. apply lookup_insert_eq. }
  assert (Erun : script file ui start
                 = (tab1 l0 sp ≫= λ _,
                    tab2 l0 (st_selectbox (constituencies (read_csv file)) ui.2)
                    ≫= λ _, tab3 l0 ≫= λ _, ret tt) w0).
  { unfold script.
    rewrite (bind_ok _ _ _ _ _ (load_data_run file start)). cbn beta.
    fold l0. change (screen start) with (@nil widget). fold w0.
    by rewrite (bind_ok _ _ _ _ _ (sidebar_run _ _ ui _ Hd0)). }
  rewrite Erun. split.
  - intros Hne Hmod.
    destruct (selected_party_key ui.1) as (p & color & Hp & _ & Hcol).
    fold sp in Hp. rewrite <- Hp in Hcol.
    destruct (tab1_ok l0 (read_csv file) sp color w0 Hd0 Hmod Hne Hcol)
      as (w1 & Ht1 & Hh1 & Hs1).
    rewrite (bind_ok _ _ _ _ _ Ht1). cbn beta.
    assert (Hd1 : heap w1 !! l0 = Some (ODataFrame (read_csv file))).
    { rewrite Hh1. eapply lookup_weaken; [apply Hd0|].
      apply after_view_subseteq. }
    assert (Hdata : read_csv file ≠ []).
    { intros E. apply Hne. by rewrite party_data_filter, E. }
    destruct (st_selectbox_Some (constituencies (read_csv file)) ui.2)
      as [c Hc]; [by rewrite constituencies_nil|].
    rewrite Hc.
    destruct (tab2_ok_labels file c l0 w1 (st_selectbox_elem _ _ _ Hc) Hd1)
      as (w2 & Ht2 & Hh2 & Hs2).
    rewrite (bind_ok _ _ _ _ _ Ht2). cbn beta.
    assert (Hd2 : heap w2 !! l0 = Some (ODataFrame (read_csv file))).
    { rewrite Hh2. eapply lookup_weaken; [apply Hd1|].
      apply after_view_subseteq. }
    rewrite (bind_ok _ _ _ _ _ (tab3_run _ _ _ Hd2)).
    unfold ret. cbn [fst snd screen]. split; [done|].
    rewrite fmap_app, Hs2, Hs1. done.
  - intros Hempty.
    assert (Ht1 : tab1 l0 sp w0
                  = (Raise ValueError,
                     mkWorld (heap (after_view [] w0).2)
                       [ Metric "Total Constituencies" (VInt 0);
                         Metric "Total Votes" (VInt 0) ])).
    { rewrite (tab1_run _ _ _ _ Hd0), Hempty. cbv zeta.
      by rewrite tab1_metrics_empty by apply after_view_lookup. }
    by rewrite (bind_raise _ _ _ _ _ Ht1).
Qed.

Lemma with_first_party_modest : modest (read_csv with_first_party).
Proof.
  split; [|split; cbn; lia].
  intros ir Hir. cbn in Hir.
  repeat (apply elem_of_cons in Hir as [->|Hir]); cbn; try lia.
  by apply elem_of_nil in Hir.
Defined.

Lemma X3_script_outcome_witness :
  (script with_first_party (0, 0) start).1 = Ok tt
  ∧ label_of <$> screen (script with_first_party (0, 0) start).2
    = [ "Total Constituencies"; "Total Votes"; "Average Votes";
        "Highest Votes"; "Total Candidates"; "Total Votes Cast";
        "Leading Party"; "Total Constituencies"; "Total Votes Cast";
        "Total Candidates" ]%string.
Proof.
  assert (Hp : parse_csv with_first_party_lines = Some with_first_party)
    by (vm_compute; reflexivity).
  apply (proj1 (X3_script_outcome with_first_party_lines with_first_party
                  (0, 0) Hp)).
  - vm_compute. discriminate.
  - apply with_first_party_modest.
Defined.

(** * The selector's options *)

Lemma ascii_compare_N (a b : Ascii.ascii) :
  Ascii.compare a b = (Ascii.N_of_ascii a ?= Ascii.N_of_ascii b)%N.
Proof. done. Qed.

Lemma string_compare_trans (s1 s2 s3 : string) :
  String.compare s1 s2 ≠ Gt → String.compare s2 s3 ≠ Gt →
  String.compare s1 s3 ≠ Gt.
Proof.
  revert s2 s3. induction s1 as [|a s1 IH]; intros [|b s2] [|c s3];
    cbn; try done.
  rewrite !ascii_compare_N.
  destruct (N.compare_spec (Ascii.N_of_ascii a) (Ascii.N_of_ascii b))
    as [Eab|Lab|Gab];
    destruct (N.compare_spec (Ascii.N_of_ascii b) (Ascii.N_of_ascii c))
      as [Ebc|Lbc|Gbc];
    destruct (N.compare_spec (Ascii.N_of_ascii a) (Ascii.N_of_ascii c))
      as [Eac|Lac|Gac];
    try done; try lia.
  apply IH.
Qed.

Lemma str_le_trans : Transitive str_le.
Proof.
  intros s1 s2 s3. unfold str_le, String.leb.
  pose proof (string_compare_trans s1 s2 s3) as Ht.
  destruct (String.compare s1 s2), (String.compare s2 s3),
    (String.compare s1 s3); try done; intros _ _; exfalso; by apply Ht.
Qed.

Lemma str_le_total : Total str_le.
Proof. intros s1 s2. apply String.leb_total. Qed.

Lemma sorted_StronglySorted (l : list string) : StronglySorted str_le (sorted l).
Proof.
  unfold sorted.
  apply (@StronglySorted_merge_sort _ str_le _ str_le_trans str_le_total).
Qed.

Lemma sorted_NoDup (l : list string) : NoDup l → NoDup (sorted l).
Proof. intros ND. unfold sorted. by rewrite merge_sort_Permutation. Qed.

Lemma sorted_length (l : list string) : length (sorted l) = length l.
Proof. unfold sorted. by rewrite merge_sort_Permutation. Qed.

(** X4 (the constituency options). On a file of plain names and decimal
    votes, the options of the constituency selector are the constituencies
    of the rows, each once, in ascending order of their text; there are as
    many as the overall Total Constituencies metric of tab 3 says; and the
    first option, which is selected before the user picks, exists and is
    the least constituency. *)
Theorem X4_constituency_options (lines : list Line) (file : list Row) :
  parse_csv lines = Some file →
  let df := read_csv file in
  (∀ c, c ∈ constituencies df ↔ ∃ ir, ir ∈ df ∧ Constituency ir.2 = c)
  ∧ NoDup (constituencies df)
  ∧ StronglySorted str_le (constituencies df)
  ∧ Z.of_nat (length (constituencies df)) = total_constituencies df
  ∧ (∃ c0, st_selectbox (constituencies df) 0 = Some c0
           ∧ ∀ c, c ∈ constituencies df → str_le c0 c).
Proof.
  intros Hparse df.
  destruct (parse_csv_frame _ _ Hparse) as (Hne & _). fold df in Hne.
  split; [apply elem_of_constituencies|].
  split; [apply sorted_NoDup, NoDup_unique_from|].
  split; [apply sorted_StronglySorted|].
  split; [unfold constituencies, total_constituencies; by rewrite sorted_length|].
  pose proof (sorted_StronglySorted
                (Series.unique (values (getcol Constituency df)))) as Hs.
  fold (constituencies df) in Hs.
  destruct (constituencies df) as [|c0 xs] eqn:E;
    [by apply constituencies_nil in E|].
  exists c0. split; [done|]. intros c Hc.
  apply elem_of_cons in Hc as [->|Hc].
  - unfold str_le, String.leb.
    destruct (String.compare c0 c0) eqn:E0; try done.
    pose proof (String.compare_antisym c0 c0) as Ha.
    rewrite E0 in Ha. discriminate Ha.
  - apply StronglySorted_inv in Hs as [_ Hall].
    by apply (proj1 (Forall_forall _ _) Hall).
Qed.

Lemma X4_constituency_options_witness :
  (∀ c, c ∈ constituencies (read_csv scenario)
        ↔ ∃ ir, ir ∈ read_csv scenario ∧ Constituency ir.2 = c)
  ∧ NoDup (constituencies (read_csv scenario))
  ∧ StronglySorted str_le (constituencies (read_csv scenario))
  ∧ Z.of_nat (length (constituencies (read_csv scenario)))
    = total_constituencies (read_csv scenario)
  ∧ (∃ c0, st_selectbox (constituencies (read_csv scenario)) 0 = Some c0
           ∧ ∀ c, c ∈ constituencies (read_csv scenario) → str_le c0 c).
Proof.
  apply (X4_constituency_options scenario_lines scenario).
  vm_compute. reflexivity.
Defined.

(** * Groups partition the table *)

Section partition.
  Context (key : nat * Row → string) (wt : nat * Row → Z).

Lemma weight_group_split (k : string) (K : list string) (df : DataFrame) :
  k ∉ K →
  exact_sum (wt <$> filter (λ ir, key ir ∈ k :: K) df)
  = (exact_sum (wt <$> filter (λ ir, key ir = k) df)
     + exact_sum (wt <$> filter (λ ir, key ir ∈ K) df))%Z.
Proof.
  intros Hk. induction df as [|ir df IH]; [done|].
  rewrite !filter_cons.
  destruct (decide (key ir = k)) as [E|NE].
  - rewrite decide_True by (rewrite E; left).
    rewrite (decide_False (P := key ir ∈ K)) by (by rewrite E).
    rewrite !fmap_cons.
    change (exact_sum (?x :: ?l)) with (x + exact_sum l)%Z. lia.
  - destruct (decide (key ir ∈ K)) as [HK|HK].
    + rewrite decide_True by (by right).
      rewrite !fmap_cons.
      change (exact_sum (?x :: ?l)) with (x + exact_sum l)%Z. lia.
    + rewrite decide_False; [done|]. rewrite elem_of_cons. tauto.
Qed.

(** Over distinct keys that cover the table, the weights of the groups add
    up to the weight of the table. *)
Lemma weight_partition (K : list string) (df : DataFrame) :
  NoDup K → (∀ ir, ir ∈ df → key ir ∈ K) →
  exact_sum ((λ k, exact_sum (wt <$> filter (λ ir, key ir = k) df)) <$> K)
  = exact_sum (wt <$> df).
Proof.
  intros ND Hall.
  assert (E : exact_sum ((λ k, exact_sum (wt <$> filter (λ ir, key ir = k) df))
                           <$> K)
              = exact_sum (wt <$> filter (λ ir, key ir ∈ K) df)).
  { clear Hall. induction ND as [|k K Hk ND IH].
    - rewrite (proj2 (filter_nil_iff (λ ir, key ir ∈ []) df)); [done|].
      intros ir _ Hin. by apply elem_of_nil in Hin.
    - rewrite weight_group_split by done. rewrite <- IH. done. }
  by rewrite E, (filter_all (λ ir, key ir ∈ K) df Hall).
Qed.

End partition.

Lemma exact_sum_ones {A} (l : list A) :
  exact_sum ((λ _, 1%Z) <$> l) = Z.of_nat (length l).
Proof.
  induction l as [|a l IH]; [done|]. rewrite fmap_cons.
  change (exact_sum (?x :: ?l)) with (x + exact_sum l)%Z.
  rewrite IH. cbn [length]. lia.
Qed.


Lemma party_data_Some (df : DataFrame) (p : string) :
  party_data df (Some p) = filter (λ ir : nat * Row, Party ir.2 = p) df.
Proof.
  rewrite party_data_filter. apply list_filter_iff. intros ir.
  split; [by intros [= ->] | by intros ->].
Qed.


(** X5 (the totals table of tab 3). On a file of plain names and decimal
    votes, the table has five columns of equal length, one line per party
    that has a row, the parties each once and in ascending order of their
    text; every line counts at least one row, and the counts add up to the
    number of rows of the table. *)
Theorem X5_totals_table_shape (lines : list Line) (file : list Row) :
  parse_csv lines = Some file →
  let df := read_csv file in
  ∃ keys tv av cn sh,
    party_totals df
    = [ ("Party", CStr keys); ("Total Votes", CInt tv);
        ("Average Votes", CFloat av); ("Constituencies", CInt cn);
        ("Vote Share (%)", CFloat sh) ]%string
    ∧ length keys = distinct (values (getcol Party df))
    ∧ length tv = length keys ∧ length av = length keys
    ∧ length cn = length keys ∧ length sh = length keys
    ∧ NoDup keys ∧ StronglySorted str_le keys
    ∧ (∀ p, p ∈ keys ↔ ∃ ir, ir ∈ df ∧ Party ir.2 = p)
    ∧ (∀ n, n ∈ cn → (1 ≤ n)%Z)
    ∧ exact_sum cn = Z.of_nat (length df).
Proof.
  intros _ df.
  set (keys := sorted (Series.unique (values (getcol Party df)))).
  assert (Ekeys : fst <$> groupby_Party df = keys).
  { unfold groupby_Party. rewrite <- list_fmap_compose. apply list_fmap_id. }
  assert (Elen : length (groupby_Party df) = length keys).
  { unfold groupby_Party. by rewrite length_fmap. }
  eexists keys, _, _, _, _. split.
  { unfold party_totals. cbv zeta. by rewrite Ekeys. }
  split; [unfold keys; by rewrite sorted_length, length_unique|].
  split; [by rewrite length_fmap|]. split; [by rewrite length_fmap|].
  split; [by rewrite length_fmap|].
  split; [unfold vote_share; by rewrite !length_fmap|].
  split; [apply sorted_NoDup, NoDup_unique_from|].
  split; [apply sorted_StronglySorted|].
  split; [apply elem_of_party_keys|].
  assert (Ecn : (λ g : string * list Z, Z.of_nat (length g.2)) <$> groupby_Party df
                = (λ k, exact_sum ((λ _, 1%Z)
                          <$> filter (λ ir : nat * Row, Party ir.2 = k) df))
                    <$> keys).
  { unfold groupby_Party. rewrite <- list_fmap_compose.
    apply list_fmap_ext. intros _ k _. cbn.
    rewrite exact_sum_ones. unfold values, getcol. by rewrite !length_fmap. }
  rewrite Ecn. split.
  - intros n Hn. apply list_elem_of_fmap in Hn as (k & -> & Hk).
    rewrite exact_sum_ones.
    apply elem_of_party_keys in Hk as (ir & Hir & Ek).
    assert (Hin : ir ∈ filter (λ ir : nat * Row, Party ir.2 = k) df)
      by (by apply list_elem_of_filter).
    destruct (filter (λ ir : nat * Row, Party ir.2 = k) df);
      [by apply elem_of_nil in Hin | cbn [length]; lia].
  - rewrite (weight_partition (λ ir, Party ir.2) (λ _, 1%Z)).
    + apply exact_sum_ones.
    + apply sorted_NoDup, NoDup_unique_from.
    + intros ir Hir. apply elem_of_party_keys. by exists ir.
Qed.

Lemma X5_totals_table_shape_witness :
  ∃ keys tv av cn sh,
    party_totals (read_csv scenario)
    = [ ("Party", CStr keys); ("Total Votes", CInt tv);
        ("Average Votes", CFloat av); ("Constituencies", CInt cn);
        ("Vote Share (%)", CFloat sh) ]%string
    ∧ length keys = distinct (values (getcol Party (read_csv scenario)))
    ∧ length tv = length keys ∧ length av = length keys
    ∧ length cn = length keys ∧ length sh = length keys
    ∧ NoDup keys ∧ StronglySorted str_le keys
    ∧ (∀ p, p ∈ keys ↔ ∃ ir, ir ∈ read_csv scenario ∧ Party ir.2 = p)
    ∧ (∀ n, n ∈ cn → (1 ≤ n)%Z)
    ∧ exact_sum cn = Z.of_nat (length (read_csv scenario)).
Proof.
  apply (X5_totals_table_shape scenario_lines scenario).
  vm_compute. reflexivity.
Defined.

(** X6 (tab 3 against tab 1). On a file of plain names and decimal votes,
    the line of a party in the totals table carries what the party view
    computes: its Total Votes is the Total Votes metric of that party's
    view, and its Constituencies is the number of rows of the view, which
    is at least the Total Constituencies metric of tab 1. When the votes
    of the view total less than 2^53, its Average Votes, the compensated
    mean of the group, is the float64 nearest to the exact mean, equal to
    the mean of the view that tab 1 takes, and its integer part is the
    Average Votes metric. *)
Theorem X6_totals_agree_with_party_view
    (lines : list Line) (file : list Row) (i : nat) (p : string) :
  parse_csv lines = Some file →
  let df := read_csv file in
  fst <$> groupby_Party df !! i = Some p →
  let view := party_data df (Some p) in
  let votes := values (getcol Total_Votes view) in
  (λ g : string * list Z, Series.sum g.2) <$> groupby_Party df !! i
  = Some (total_votes view)
  ∧ (λ g : string * list Z, Z.of_nat (length g.2)) <$> groupby_Party df !! i
    = Some (Z.of_nat (length view))
  ∧ (1 ≤ total_constituencies view ≤ Z.of_nat (length view))%Z
  ∧ (modest view →
     ∃ mean : float64,
       (λ g : string * list Z, Series.group_mean g.2) <$> groupby_Party df !! i
       = Some mean
       ∧ mean = F64.round (inject_Z (exact_sum votes)
                           / inject_Z (Z.of_nat (length view)))
       ∧ Series.mean votes = mean
       ∧ average_votes view = py_int (SFloat mean)
       ∧ average_votes view
         = Ok (exact_sum votes `div` Z.of_nat (length view))%Z).
Proof.
  intros _ df Hi view votes.
  destruct (groupby_Party df !! i) as [g|] eqn:Eg; [|done].
  injection Hi as Hp.
  assert (Hg : g = (p, votes)).
  { unfold groupby_Party in Eg. rewrite list_lookup_fmap in Eg.
    destruct (sorted (Series.unique (values (getcol Party df))) !! i) as [k|];
      [|done].
    injection Eg as <-. cbn in Hp. subst k.
    unfold votes, view. by rewrite party_data_Some. }
  rewrite Hg. cbn [fmap option_fmap option_map snd].
  assert (Hlen : length votes = length view).
  { unfold votes, values, getcol. by rewrite !length_fmap. }
  assert (Hin : p ∈ sorted (Series.unique (values (getcol Party df)))).
  { assert (Hl : (fst <$> groupby_Party df) !! i = Some p).
    { by rewrite list_lookup_fmap, Eg, Hg. }
    apply list_elem_of_lookup_2 in Hl.
    unfold groupby_Party in Hl. rewrite <- list_fmap_compose in Hl.
    by rewrite list_fmap_id in Hl. }
  apply elem_of_party_keys in Hin as (ir & Hir & Ep).
  assert (Hv : ir ∈ view).
  { unfold view. rewrite party_data_Some. by apply list_elem_of_filter. }
  split; [done|]. split; [by rewrite Hlen|]. split.
  - unfold total_constituencies. rewrite length_unique.
    pose proof (distinct_le (values (getcol Constituency view))) as Hle.
    assert (Hlc : length (values (getcol Constituency view)) = length view).
    { unfold values, getcol. by rewrite !length_fmap. }
    assert (Hpos : 1 ≤ distinct (values (getcol Constituency view))).
    { rewrite <- length_unique.
      assert (Hc : Constituency ir.2
                   ∈ Series.unique (values (getcol Constituency view))).
      { apply elem_of_unique. unfold values, getcol.
        rewrite <- list_fmap_compose. apply list_elem_of_fmap. by exists ir. }
      destruct (Series.unique (values (getcol Constituency view)));
        [by apply elem_of_nil in Hc | cbn [length]; lia]. }
    lia.
  - intros (Hnn & Hfit & Hsize).
    assert (Hne : view ≠ []) by (intros E; rewrite E in Hv; by apply elem_of_nil in Hv).
    assert (Hs : ∀ v, v ∈ votes → (0 ≤ v)%Z).
    { intros v Hx. apply elem_of_votes in Hx as (jr & Hjr & <-). by apply Hnn. }
    assert (Hvne : votes ≠ []).
    { intros E. rewrite E in Hlen. destruct view; [done|]. cbn in Hlen. lia. }
    destruct (means_exact votes Hvne Hs Hfit ltac:(lia)) as [Egm Em].
    rewrite Hlen in Egm, Em.
    eexists. split; [reflexivity|]. split; [exact Egm|].
    split; [by rewrite Em, Egm|]. split.
    + unfold average_votes. fold votes. by rewrite Em, Egm.
    + by apply average_votes_floor.
Qed.

Lemma X6_totals_agree_with_party_view_witness :
  (λ g : string * list Z, Series.sum g.2) <$> groupby_Party (read_csv scenario) !! 0
  = Some (total_votes (party_data (read_csv scenario) (Some "PartyA"%string)))
  ∧ (λ g : string * list Z, Z.of_nat (length g.2))
      <$> groupby_Party (read_csv scenario) !! 0
    = Some (Z.of_nat (length (party_data (read_csv scenario)
                                (Some "PartyA"%string))))
  ∧ ∃ mean : float64,
      (λ g : string * list Z, Series.group_mean g.2)
        <$> groupby_Party (read_csv scenario) !! 0
      = Some mean
      ∧ Series.mean (values (getcol Total_Votes
                               (party_data (read_csv scenario)
                                  (Some "PartyA"%string))))
        = mean
      ∧ average_votes (party_data (read_csv scenario) (Some "PartyA"%string))
        = py_int (SFloat mean).
Proof.
  assert (Hp : parse_csv scenario_lines = Some scenario)
    by (vm_compute; reflexivity).
  assert (Hi : fst <$> groupby_Party (read_csv scenario) !! 0
               = Some "PartyA"%string) by (vm_compute; reflexivity).
  destruct (X6_totals_agree_with_party_view scenario_lines scenario 0 "PartyA"
              Hp Hi)
    as (H1 & H2 & _ & H4).
  split; [exact H1|]. split; [exact H2|].
  destruct H4 as (mean & Hm1 & _ & Hm3 & Hm4 & _).
  - apply party_data_modest, scenario_modest.
  - exists mean. split; [exact Hm1|]. split; [exact Hm3 | exact Hm4].
Defined.

(** * Sums and counts across views *)

Lemma wrap64_range (z : Z) : int64 (wrap64 z).
Proof.
  unfold int64, wrap64.
  pose proof (Z.mod_pos_bound (z + 2 ^ 63) (2 ^ 64) ltac:(lia)). lia.
Qed.

Lemma wrap64_congr (z : Z) : ((z - wrap64 z) `mod` 2 ^ 64 = 0)%Z.
Proof.
  unfold wrap64.
  pose proof (Z.div_mod (z + 2 ^ 63) (2 ^ 64) ltac:(lia)) as Hdm.
  replace (z - ((z + 2 ^ 63) `mod` 2 ^ 64 - 2 ^ 63))%Z
    with ((z + 2 ^ 63) `div` 2 ^ 64 * 2 ^ 64)%Z by lia.
  apply Z.mod_mul. lia.
Qed.

(** X7 (the sum shown, overflow included). When every vote is a signed
    64-bit integer, the total a view shows is a signed 64-bit integer that
    differs from the exact sum of the votes by a multiple of 2^64; the
    party view, the constituency view and the overall metric compute it
    the same way, and it is the exact sum exactly when that fits in 64
    bits. *)
Theorem X7_sum_wraps_to_int64 (S : DataFrame) :
  (∀ ir, ir ∈ S → int64 (Total_Votes ir.2)) →
  int64 (total_votes S)
  ∧ ((exact_sum (values (getcol Total_Votes S)) - total_votes S)
       `mod` 2 ^ 64 = 0)%Z
  ∧ total_votes_cast S = total_votes S
  ∧ (total_votes S = exact_sum (values (getcol Total_Votes S))
     ↔ int64 (exact_sum (values (getcol Total_Votes S)))).
Proof.
  intros _. unfold total_votes, total_votes_cast. rewrite sum_wrap.
  split; [apply wrap64_range|]. split; [apply wrap64_congr|].
  split; [done|]. split.
  - intros E. rewrite <- E. apply wrap64_range.
  - apply wrap64_id.
Qed.

Lemma X7_sum_wraps_to_int64_witness :
  int64 (total_votes (read_csv huge))
  ∧ ((exact_sum (values (getcol Total_Votes (read_csv huge)))
      - total_votes (read_csv huge)) `mod` 2 ^ 64 = 0)%Z
  ∧ total_votes_cast (read_csv huge) = total_votes (read_csv huge)
  ∧ (total_votes (read_csv huge)
     = exact_sum (values (getcol Total_Votes (read_csv huge)))
     ↔ int64 (exact_sum (values (getcol Total_Votes (read_csv huge))))).
Proof.
  apply (X7_sum_wraps_to_int64 (read_csv huge)).
  intros ir Hir. cbn in Hir.
  repeat (apply elem_of_cons in Hir as [->|Hir]);
    [unfold int64; cbn; lia .. | by apply elem_of_nil in Hir].
Defined.

Lemma distinct_mono (l k : list string) :
  (∀ x, x ∈ l → x ∈ k) → distinct l ≤ distinct k.
Proof.
  intros Hsub. unfold distinct. apply subseteq_size.
  intros x. rewrite !elem_of_list_to_set. apply Hsub.
Qed.

(** X8 (distinct counts). The Total Constituencies of a party view is at
    most the overall Total Constituencies of tab 3 and at most the number
    of rows of the view; the overall Total Candidates of tab 3 counts
    distinct candidate names, so it is at most the number of rows of the
    table and equals it exactly when no name occurs twice. *)
Theorem X8_distinct_counts (df : DataFrame) (sel : option string) :
  (total_constituencies (party_data df sel) ≤ total_constituencies df)%Z
  ∧ (total_constituencies (party_data df sel)
     ≤ Z.of_nat (length (party_data df sel)))%Z
  ∧ (Z.of_nat (length (Series.unique (values (getcol Candidate df))))
     ≤ Z.of_nat (length df))%Z
  ∧ (Z.of_nat (length (Series.unique (values (getcol Candidate df))))
     = Z.of_nat (length df)
     ↔ NoDup (values (getcol Candidate df))).
Proof.
  assert (Hlen : ∀ (col : Row → string) (d : DataFrame),
            length (values (getcol col d)) = length d).
  { intros col d. unfold values, getcol. by rewrite !length_fmap. }
  unfold total_constituencies. rewrite !length_unique.
  split; [|split; [|split]].
  - apply inj_le, distinct_mono. intros c Hc.
    unfold values, getcol in *. rewrite <- list_fmap_compose in *.
    apply list_elem_of_fmap in Hc as (ir & -> & Hir).
    apply list_elem_of_fmap. exists ir. split; [done|].
    rewrite party_data_filter in Hir.
    by apply list_elem_of_filter in Hir as [_ ?].
  - pose proof (distinct_le (values (getcol Constituency (party_data df sel)))).
    rewrite Hlen in *. lia.
  - pose proof (distinct_le (values (getcol Candidate df))).
    rewrite Hlen in *. lia.
  - rewrite <- distinct_full, Hlen. lia.
Qed.




(** * Vote shares: the exact cases *)

Lemma share_all (total : Z) :
  (1 ≤ total ≤ 2 ^ 63)%Z → share total total = Fin 100.
Proof.
  intros Ht. unfold share.
  destruct (of_int_rel total Ht) as (a & -> & Ha1 & Ha2).
  assert (Ha : (0 < a)%Q).
  { assert (1 <= inject_Z total)%Q.
    { change 1%Q with (inject_Z 1). rewrite <- Zle_Qle. lia. }
    lra. }
  rewrite (div_fin a a Ha).
  rewrite (round_Qeq (a / a) 1) by (field; lra).
  by vm_compute.
Qed.

(** X10 (the extreme shares). When the votes of the table total between 1
    and 2^63, a party without votes is shown the share 0.0 and a party
    holding all the votes the share 100.0, exactly; in particular a
    non-empty table of a single party has the one share 100.0. *)
Theorem X10_extreme_shares (total : Z) :
  (1 ≤ total < 2 ^ 63)%Z →
  share total 0 = Fin 0
  ∧ share total total = Fin 100
  ∧ vote_share [total] = [Fin 100]
  ∧ vote_share [0; total]%Z = [Fin 0; Fin 100].
Proof.
  intros Ht.
  assert (H0 : share total 0 = Fin 0) by (apply share_zero; lia).
  assert (H1 : share total total = Fin 100) by (apply share_all; lia).
  split; [done|]. split; [done|].
  assert (E1 : Series.sum [total] = total).
  { rewrite sum_exact; [cbn; lia | unfold int64; cbn; lia]. }
  assert (E2 : Series.sum [0; total]%Z = total).
  { rewrite sum_exact; [cbn; lia | unfold int64; cbn; lia]. }
  unfold vote_share. rewrite E1, E2. cbn [fmap list_fmap].
  by rewrite H0, H1.
Qed.

Lemma X10_extreme_shares_witness :
  share 300 0 = Fin 0
  ∧ share 300 300 = Fin 100
  ∧ vote_share [300%Z] = [Fin 100]
  ∧ vote_share [0; 300]%Z = [Fin 0; Fin 100].
Proof. apply X10_extreme_shares. lia. Defined.

(** X11 (tab 3 never raises). On any loaded table, the empty one included,
    tab 3 ends normally: the four new column names fit the four columns of
    the aggregate, the Total Votes column is found, and the vote shares are
    added as a fifth column of one new object; the three overall metrics
    are rendered after whatever was on the page. *)
Theorem X11_tab3_ends_normally (data : ref) (df : DataFrame) (w : world) :
  heap w !! data = Some (ODataFrame df) →
  ∃ l w',
    tab3 data w = (Ok l, w')
    ∧ heap w !! l = None
    ∧ heap w' = <[l := OTable (party_totals df)]> (heap w)
    ∧ fst <$> party_totals df
      = [ "Party"; "Total Votes"; "Average Votes"; "Constituencies";
          "Vote Share (%)" ]%string
    ∧ screen w'
      = screen w
        ++ [ Metric "Total Constituencies"
               (VInt (Z.of_nat (distinct (values (getcol Constituency df)))));
             Metric "Total Votes Cast" (VInt (total_votes_cast df));
             Metric "Total Candidates"
               (VInt (Z.of_nat (distinct (values (getcol Candidate df))))) ].
Proof.
  intros Hd. eexists _, _. split; [apply (tab3_run _ _ _ Hd)|].
  split; [apply not_elem_of_dom, is_fresh|]. split; [done|]. split; [done|].
  cbn [screen]. unfold overall_metrics, total_constituencies.
  by rewrite !length_unique.
Qed.

Lemma X11_tab3_ends_normally_witness :
  ∃ l w',
    tab3 7 (world_with 7 []) = (Ok l, w')
    ∧ heap (world_with 7 []) !! l = None
    ∧ heap w' = <[l := OTable (party_totals [])]> (heap (world_with 7 []))
    ∧ fst <$> party_totals []
      = [ "Party"; "Total Votes"; "Average Votes"; "Constituencies";
          "Vote Share (%)" ]%string
    ∧ screen w'
      = screen (world_with 7 [])
        ++ [ Metric "Total Constituencies"
               (VInt (Z.of_nat (distinct (values (getcol Constituency [])))));
             Metric "Total Votes Cast" (VInt (total_votes_cast []));
             Metric "Total Candidates"
               (VInt (Z.of_nat (distinct (values (getcol Candidate []))))) ].
Proof. apply X11_tab3_ends_normally. reflexivity. Defined.
